(** * WindowServo: the dispatch / translation pipeline and the recognition
      engine of [RaspberryPi_ws], embedded in Rocq.

    The development follows the two Python modules it verifies:

    - [outputHandler.py]: [ConsoleOutputHandler], [SimpleESP32Handler],
      [OpenAIAPIHandler], [MultiOutputHandler];
    - [voskCore.py]: [VoskSTTEngine] (start / stop / watchdog / capture loop).

    Python values are modelled as they are at run time: a [str] is a sequence
    of Unicode code points, an [int] is unbounded, a [float] is an IEEE-754
    binary64 value written as [m * 2^e], a [dict] keeps insertion order.
    Effects (serial port, HTTP session, console, clock) are threaded through
    an explicit [world]: scripts that say how the environment answers, and a
    trace of what the program did.  Diagnostic [print]s of the handlers and
    interpreter resource limits (recursion depth, memory, the integer-string
    digit guard) are not modelled. *)

From Stdlib Require Import List ZArith NArith Bool Lia String Ascii Wf_nat.
From Stdlib Require Import DecimalString Sorted.
Import ListNotations.

Set Implicit Arguments.
Set Warnings "-register-all".

(* ===================================================================== *)
(** ** Python text *)
(* ===================================================================== *)

Module PyText.

(** A Python [str]: the list of its code points. *)
Definition char := N.
Definition text := list char.

Definition text_eq_dec : forall a b : text, {a = b} + {a <> b} :=
  list_eq_dec N.eq_dec.

Definition text_eqb (a b : text) : bool :=
  if text_eq_dec a b then true else false.

(** Source literals are UTF-8 in the [.py] files; [lit] decodes a Rocq
    string literal (a byte string) into code points the same way. *)
Definition byte_of (a : ascii) : N := N_of_ascii a.

Fixpoint utf8_decode (bs : list N) : text :=
  match bs with
  | [] => []
  | b0 :: r0 =>
      if (b0 <? 128)%N then b0 :: utf8_decode r0
      else match r0 with
      | b1 :: r1 =>
          if (b0 <? 224)%N
          then ((b0 - 192) * 64 + (b1 - 128))%N :: utf8_decode r1
          else match r1 with
          | b2 :: r2 =>
              if (b0 <? 240)%N
              then ((b0 - 224) * 4096 + (b1 - 128) * 64 + (b2 - 128))%N
                     :: utf8_decode r2
              else match r2 with
              | b3 :: r3 =>
                  ((b0 - 240) * 262144 + (b1 - 128) * 4096
                   + (b2 - 128) * 64 + (b3 - 128))%N :: utf8_decode r3
              | [] => [b0; b1; b2]
              end
          | [] => [b0; b1]
          end
      | [] => [b0]
      end
  end.

Definition lit (s : string) : text :=
  utf8_decode (map byte_of (list_ascii_of_string s)).

Coercion lit : string >-> text.

(** [str.isspace] on one code point (the Unicode White_Space / bidi type
    WS, B, S set CPython uses for [strip]). *)
Definition isspace (c : char) : bool :=
  ((9 <=? c) && (c <=? 13) || (28 <=? c) && (c <=? 32)
   || (c =? 133) || (c =? 160) || (c =? 5760)
   || (8192 <=? c) && (c <=? 8202)
   || (c =? 8232) || (c =? 8233) || (c =? 8239) || (c =? 8287)
   || (c =? 12288))%N.

Fixpoint lstrip (s : text) : text :=
  match s with
  | c :: r => if isspace c then lstrip r else s
  | [] => []
  end.

Definition rstrip (s : text) : text := rev (lstrip (rev s)).

(** [s.strip()] *)
Definition strip (s : text) : text := rstrip (lstrip s).

(** [str.lower] on the code points up to U+00FF: A-Z and the Latin-1
    capitals (U+00C0..U+00DE but the multiplication sign U+00D7). *)
Definition lower_latin1 (c : char) : char :=
  if ((65 <=? c) && (c <=? 90)
      || (192 <=? c) && (c <=? 222) && negb (c =? 215))%N
  then (c + 32)%N else c.

Definition is_latin1 (s : text) : bool := forallb (fun c => (c <? 256)%N) s.

(** Decimal rendering of an [int], as [str(n)] gives it. *)
Definition str_of_int (z : Z) : text :=
  map byte_of (list_ascii_of_string (NilZero.string_of_int (Z.to_int z))).

(** The first [{] ... last [}] span: [re.search(r'\{.*\}', s, re.DOTALL)].
    The search is leftmost, so the match starts at the first [{]; [.*] is
    greedy and, with DOTALL, crosses newlines, so it ends at the last [}]
    that follows. *)
Definition open_brace : char := 123%N.
Definition close_brace : char := 125%N.

Fixpoint from_first_open (s : text) : option text :=
  match s with
  | [] => None
  | c :: r => if (c =? open_brace)%N then Some s else from_first_open r
  end.

(** Longest prefix of [s] that ends with [}], if [s] has a [}] at all. *)
Fixpoint upto_last_close (s : text) : option text :=
  match s with
  | [] => None
  | c :: r =>
      match upto_last_close r with
      | Some p => Some (c :: p)
      | None => if (c =? close_brace)%N then Some [c] else None
      end
  end.

Definition search_braces (s : text) : option text :=
  match from_first_open s with
  | Some (c :: r) =>
      match upto_last_close r with
      | Some p => Some (c :: p)
      | None => None
      end
  | _ => None
  end.

End PyText.
Export PyText.

(* ===================================================================== *)
(** ** Python values, exceptions and the conversions the handlers use *)
(* ===================================================================== *)

Module PyVal.

(** A binary64 [float]: [(-1)^neg * m * 2^e], an infinity, or a NaN. *)
Inductive pyfloat :=
| FFinite (neg : bool) (m : N) (e : Z)
| FInf (neg : bool)
| FNaN.

(** The values [json.loads] can produce (and the handlers pass around). *)
Inductive pyval :=
| PNone
| PBool (b : bool)
| PInt (z : Z)
| PFloat (f : pyfloat)
| PStr (s : text)
| PList (l : list pyval)
| PDict (d : list (text * pyval)).

(** A [dict]: key/value pairs in insertion order, keys unique. *)
Definition pydict := list (text * pyval).

Inductive exn :=
| JSONDecodeError
| AttributeError
| TypeError
| ValueError
| OverflowError
| KeyError
| IndexError
| RuntimeError
| OSError.

(** Outcome of an expression that may raise. *)
Inductive res (A : Type) :=
| Ok (a : A)
| Raise (e : exn).
Arguments Ok {A} a.
Arguments Raise {A} e.

Definition bind {A B} (x : res A) (k : A -> res B) : res B :=
  match x with
  | Ok a => k a
  | Raise e => Raise e
  end.

(** What CPython computes from tables that are not part of the sources:
    case mapping and decimal digits beyond U+00FF, and the [repr] of floats
    and containers.  Everything below is stated for an arbitrary runtime. *)
Class Runtime := {
  lower_wide : text -> text;
  int_wide : text -> option Z;
  repr_other : pyval -> text
}.

(** [d[k] = v] *)
Fixpoint dict_set (d : pydict) (k : text) (v : pyval) : pydict :=
  match d with
  | [] => [(k, v)]
  | (k', v') :: r =>
      if text_eq_dec k' k then (k', v) :: r else (k', v') :: dict_set r k v
  end.

(** [dict(pairs)] *)
Definition dict_of_pairs (pairs : list (text * pyval)) : pydict :=
  fold_left (fun d kv => dict_set d (fst kv) (snd kv)) pairs [].

Fixpoint dict_lookup (d : pydict) (k : text) : option pyval :=
  match d with
  | [] => None
  | (k', v) :: r => if text_eq_dec k' k then Some v else dict_lookup r k
  end.

(** [d.get(k, default)] *)
Definition dict_get (d : pydict) (k : text) (default : pyval) : pyval :=
  match dict_lookup d k with
  | Some v => v
  | None => default
  end.

(** Truth value of an object, as [if x:] tests it. *)
Definition truthy (v : pyval) : bool :=
  match v with
  | PNone => false
  | PBool b => b
  | PInt z => negb (z =? 0)%Z
  | PFloat (FFinite _ m _) => negb (m =? 0)%N
  | PFloat _ => true
  | PStr s => match s with [] => false | _ => true end
  | PList l => match l with [] => false | _ => true end
  | PDict d => match d with [] => false | _ => true end
  end.

(** *** Floats *)

(** Is [num / den >= 2^k] ? *)
Definition ratio_ge_pow2 (num den k : Z) : bool :=
  if (0 <=? k)%Z then (den * 2 ^ k <=? num)%Z
  else (den <=? num * 2 ^ (- k))%Z.

(** [float("<digits>e<exp10>")]: the binary64 value nearest to
    [d * 10^exp10], ties to even; overflow gives an infinity. *)
Definition float_of_decimal (neg : bool) (d : N) (exp10 : Z) : pyfloat :=
  if (d =? 0)%N then FFinite neg 0 0 else
  let num := if (0 <=? exp10)%Z then (Z.of_N d * 10 ^ exp10)%Z else Z.of_N d in
  let den := if (0 <=? exp10)%Z then 1%Z else (10 ^ (- exp10))%Z in
  let l := (Z.log2 num - Z.log2 den)%Z in
  let fl := if ratio_ge_pow2 num den l then l else (l - 1)%Z in
  let e := Z.max (fl - 52) (-1074) in
  let n' := if (0 <=? e)%Z then num else (num * 2 ^ (- e))%Z in
  let d' := if (0 <=? e)%Z then (den * 2 ^ e)%Z else den in
  let q := (n' / d')%Z in
  let r := (n' mod d')%Z in
  let q' := if ((d' <? 2 * r) || ((d' =? 2 * r) && Z.odd q))%Z
            then (q + 1)%Z else q in
  if ((0 <=? e) && (2 ^ 1024 <=? q' * 2 ^ e))%Z then FInf neg
  else FFinite neg (Z.to_N q') e.

(** [int(f)]: truncation toward zero; infinities and NaN raise. *)
Definition int_of_float (f : pyfloat) : res Z :=
  match f with
  | FFinite neg m e =>
      let mag := if (0 <=? e)%Z then (Z.of_N m * 2 ^ e)%Z
                 else (Z.of_N m / 2 ^ (- e))%Z in
      Ok (if neg then (- mag)%Z else mag)
  | FInf _ => Raise OverflowError
  | FNaN => Raise ValueError
  end.

(** *** [int(str)] *)

Definition is_digit (c : char) : bool := ((48 <=? c) && (c <=? 57))%N.
Definition digit_val (c : char) : N := (c - 48)%N.

(** The blanks [PyLong_FromString] skips: tab..CR and space. *)
Definition is_c_space (c : char) : bool :=
  ((9 <=? c) && (c <=? 13) || (c =? 32))%N.

Fixpoint skip_c_space (s : text) : text :=
  match s with
  | c :: r => if is_c_space c then skip_c_space r else s
  | [] => []
  end.

(** [digit (_? digit)*] followed by blanks to the end of the string;
    [prev_digit] says whether the previous character was a digit. *)
Fixpoint int_digits (s : text) (acc : N) (prev_digit : bool) : option N :=
  match s with
  | [] => if prev_digit then Some acc else None
  | c :: r =>
      if is_digit c then int_digits r (acc * 10 + digit_val c)%N true
      else if (c =? 95)%N then
        if prev_digit then int_digits r acc false else None
      else if prev_digit then
        match skip_c_space s with [] => Some acc | _ => None end
      else None
  end.

Definition int_of_latin1 (s : text) : option Z :=
  (* non-ASCII blanks count as a space, other non-ASCII characters (none
     of them a decimal digit below U+0100) are invalid *)
  let s1 := map (fun c => if (c <? 127)%N then c
                          else if isspace c then 32%N else 63%N) s in
  let s2 := skip_c_space s1 in
  match s2 with
  | c :: r =>
      if (c =? 45)%N then option_map (fun n => (- Z.of_N n)%Z) (int_digits r 0 false)
      else if (c =? 43)%N then option_map Z.of_N (int_digits r 0 false)
      else option_map Z.of_N (int_digits s2 0 false)
  | [] => None
  end.

Section WithRuntime.
Context {R : Runtime}.

(** [s.lower()] *)
Definition lower (s : text) : text :=
  if is_latin1 s then map lower_latin1 s else lower_wide s.

(** [int(s)] for a [str] *)
Definition int_of_text (s : text) : res Z :=
  match (if is_latin1 s then int_of_latin1 s else int_wide s) with
  | Some z => Ok z
  | None => Raise ValueError
  end.

(** [str(v)] *)
Definition py_str (v : pyval) : text :=
  match v with
  | PStr s => s
  | PNone => lit "None"
  | PBool true => lit "True"
  | PBool false => lit "False"
  | PInt z => str_of_int z
  | _ => repr_other v
  end.

(** [int(v)] *)
Definition py_int (v : pyval) : res Z :=
  match v with
  | PInt z => Ok z
  | PBool b => Ok (if b then 1%Z else 0%Z)
  | PFloat f => int_of_float f
  | PStr s => int_of_text s
  | PNone | PList _ | PDict _ => Raise TypeError
  end.

End WithRuntime.

End PyVal.
Export PyVal.

(* ===================================================================== *)
(** ** [json.loads] *)
(* ===================================================================== *)

Module Json.

(** Result of scanning a prefix of the input: the value and what is left,
    a decode error, or no fuel left (shown below never to happen). *)
Inductive scan (A : Type) :=
| Found (a : A) (rest : text)
| Bad
| Starved.
Arguments Found {A} a rest.
Arguments Bad {A}.
Arguments Starved {A}.

(** JSON blanks: space, tab, line feed, carriage return. *)
Definition is_json_ws (c : char) : bool :=
  ((c =? 32) || (c =? 9) || (c =? 10) || (c =? 13))%N.

Fixpoint skip_ws (s : text) : text :=
  match s with
  | c :: r => if is_json_ws c then skip_ws r else s
  | [] => []
  end.

Definition hex_val (c : char) : option N :=
  if ((48 <=? c) && (c <=? 57))%N then Some (c - 48)%N
  else if ((97 <=? c) && (c <=? 102))%N then Some (c - 87)%N
  else if ((65 <=? c) && (c <=? 70))%N then Some (c - 55)%N
  else None.

Definition hex4 (a b c d : char) : option N :=
  match hex_val a, hex_val b, hex_val c, hex_val d with
  | Some x, Some y, Some z, Some w => Some (x * 4096 + y * 256 + z * 16 + w)%N
  | _, _, _, _ => None
  end.

Definition is_high_surrogate (u : N) : bool := ((55296 <=? u) && (u <=? 56319))%N.
Definition is_low_surrogate (u : N) : bool := ((56320 <=? u) && (u <=? 57343))%N.
Definition join_surrogates (hi lo : N) : N :=
  (65536 + (hi - 55296) * 1024 + (lo - 56320))%N.

(** The one-character escapes: quote, backslash, slash, b f n r t. *)
Definition unescape (c : char) : option char :=
  if (c =? 34)%N then Some 34%N
  else if (c =? 92)%N then Some 92%N
  else if (c =? 47)%N then Some 47%N
  else if (c =? 98)%N then Some 8%N
  else if (c =? 102)%N then Some 12%N
  else if (c =? 110)%N then Some 10%N
  else if (c =? 114)%N then Some 13%N
  else if (c =? 116)%N then Some 9%N
  else None.

(** [scanstring] (strict): the input is what follows the opening quote;
    [acc] collects the decoded characters in reverse. *)
Fixpoint scanstring (s : text) (acc : text) : scan text :=
  match s with
  | [] => Bad
  | c :: r =>
      if (c =? 34)%N then Found (rev acc) r
      else if (c =? 92)%N then
        match r with
        | [] => Bad
        | e :: r1 =>
            if (e =? 117)%N then
              match r1 with
              | h1 :: h2 :: h3 :: h4 :: r2 =>
                  match hex4 h1 h2 h3 h4 with
                  | None => Bad
                  | Some u1 =>
                      if is_high_surrogate u1 then
                        match r2 with
                        | b :: u :: k1 :: k2 :: k3 :: k4 :: r3 =>
                            if ((b =? 92) && (u =? 117))%N then
                              match hex4 k1 k2 k3 k4 with
                              | None => Bad
                              | Some u2 =>
                                  if is_low_surrogate u2
                                  then scanstring r3 (join_surrogates u1 u2 :: acc)
                                  else scanstring r2 (u1 :: acc)
                              end
                            else scanstring r2 (u1 :: acc)
                        | _ => scanstring r2 (u1 :: acc)
                        end
                      else scanstring r2 (u1 :: acc)
                  end
              | _ => Bad
              end
            else
              match unescape e with
              | Some ch => scanstring r1 (ch :: acc)
              | None => Bad
              end
        end
      else if (c <=? 31)%N then Bad
      else scanstring r (c :: acc)
  end.

(** Leading decimal digits of [s]: their value, their count, the rest. *)
Fixpoint take_digits (s : text) (acc : N) (n : nat) : N * nat * text :=
  match s with
  | c :: r => if is_digit c then take_digits r (acc * 10 + digit_val c)%N (S n)
              else (acc, n, s)
  | [] => (acc, n, [])
  end.

(** The number grammar of the scanner, longest match: an optional minus,
    then a lone zero or a nonzero digit with further digits, then
    optionally a dot with at least one digit, then optionally [e] or [E],
    a sign and at least one digit. *)

(** The optional minus. *)
Definition number_sign (s : text) : bool * text :=
  match s with
  | c :: r => if (c =? 45)%N then (true, r) else (false, s)
  | [] => (false, s)
  end.

(** The integer part: its value and the rest. *)
Definition number_int (s : text) : option (N * text) :=
  match s with
  | [] => None
  | c :: r =>
      if negb (is_digit c) then None
      else if (c =? 48)%N then Some (0%N, r)
      else let '(ip, _, rest) := take_digits s 0 0 in Some (ip, rest)
  end.

(** The fraction after the integer part [ip]: the digits of both read as
    one number, the count of fraction digits, the rest. *)
Definition number_frac (ip : N) (s : text) : option (N * nat * text) :=
  match s with
  | dot :: r1 =>
      match r1 with
      | d :: _ =>
          if (dot =? 46)%N && is_digit d
          then Some (take_digits r1 ip 0)
          else None
      | [] => None
      end
  | [] => None
  end.

(** The exponent: its value and the rest. *)
Definition number_exp (s : text) : option (Z * text) :=
  match s with
  | e :: r2 =>
      if ((e =? 101) || (e =? 69))%N then
        let '(eneg, r3) :=
          match r2 with
          | sg :: r3 =>
              if (sg =? 45)%N then (true, r3)
              else if (sg =? 43)%N then (false, r3)
              else (false, r2)
          | [] => (false, r2)
          end in
        match r3 with
        | d :: _ =>
            if is_digit d
            then let '(x, _, rest) := take_digits r3 0 0 in
                 Some ((if eneg then - Z.of_N x else Z.of_N x)%Z, rest)
            else None
        | [] => None
        end
      else None
  | [] => None
  end.

(** The value is an [int] when there is neither fraction nor exponent,
    else a [float]. *)
Definition match_number (s : text) : option (pyval * text) :=
  let '(neg, s0) := number_sign s in
  match number_int s0 with
  | None => None
  | Some (ip, s1) =>
      let '(mant, nfrac, has_frac, s2) :=
        match number_frac ip s1 with
        | Some (m, n, rest) => (m, n, true, rest)
        | None => (ip, 0%nat, false, s1)
        end in
      let '(ex, has_exp, s3) :=
        match number_exp s2 with
        | Some (x, rest) => (x, true, rest)
        | None => (0%Z, false, s2)
        end in
      if has_frac || has_exp
      then Some (PFloat (float_of_decimal neg mant (ex - Z.of_nat nfrac)), s3)
      else Some (PInt (if neg then - Z.of_N ip else Z.of_N ip)%Z, s3)
  end.

(** [s.startswith(p)], returning what follows [p]. *)
Fixpoint strip_prefix (p s : text) : option text :=
  match p, s with
  | [], _ => Some s
  | a :: p', b :: s' => if (a =? b)%N then strip_prefix p' s' else None
  | _ :: _, [] => None
  end.

(** The constants and numbers of [scan_once]. *)
Definition scan_atom (s : text) : scan pyval :=
  match strip_prefix (lit "null") s with
  | Some r => Found PNone r
  | None =>
  match strip_prefix (lit "true") s with
  | Some r => Found (PBool true) r
  | None =>
  match strip_prefix (lit "false") s with
  | Some r => Found (PBool false) r
  | None =>
  match match_number s with
  | Some (v, r) => Found v r
  | None =>
  match strip_prefix (lit "NaN") s with
  | Some r => Found (PFloat FNaN) r
  | None =>
  match strip_prefix (lit "Infinity") s with
  | Some r => Found (PFloat (FInf false)) r
  | None =>
  match strip_prefix (lit "-Infinity") s with
  | Some r => Found (PFloat (FInf true)) r
  | None => Bad
  end end end end end end end.

(** [scan_once], [JSONObject] and [JSONArray].  [parse_members] is entered
    after the opening quote of a key, [parse_elems] at the start of an
    element; [acc] holds what was decoded so far. *)
Fixpoint scan_once (fuel : nat) (s : text) {struct fuel} : scan pyval :=
  match fuel with
  | O => Starved
  | S fuel' =>
      match s with
      | [] => Bad
      | c :: r =>
          if (c =? 34)%N then
            match scanstring r [] with
            | Found t rest => Found (PStr t) rest
            | Bad => Bad
            | Starved => Starved
            end
          else if (c =? 123)%N then
            match skip_ws r with
            | c1 :: r1 =>
                if (c1 =? 125)%N then Found (PDict []) r1
                else if (c1 =? 34)%N then parse_members fuel' r1 []
                else Bad
            | [] => Bad
            end
          else if (c =? 91)%N then
            match skip_ws r with
            | c1 :: r1 =>
                if (c1 =? 93)%N then Found (PList []) r1
                else parse_elems fuel' (c1 :: r1) []
            | [] => Bad
            end
          else scan_atom s
      end
  end
with parse_members (fuel : nat) (s : text) (acc : pydict) {struct fuel}
  : scan pyval :=
  match fuel with
  | O => Starved
  | S fuel' =>
      match scanstring s [] with
      | Found key s1 =>
          match skip_ws s1 with
          | colon :: s2 =>
              if negb (colon =? 58)%N then Bad else
              match scan_once fuel' (skip_ws s2) with
              | Found v s3 =>
                  let acc' := dict_set acc key v in
                  match skip_ws s3 with
                  | c :: s4 =>
                      if (c =? 125)%N then Found (PDict acc') s4
                      else if (c =? 44)%N then
                        match skip_ws s4 with
                        | q :: s5 =>
                            if (q =? 34)%N then parse_members fuel' s5 acc'
                            else Bad
                        | [] => Bad
                        end
                      else Bad
                  | [] => Bad
                  end
              | Bad => Bad
              | Starved => Starved
              end
          | [] => Bad
          end
      | Bad => Bad
      | Starved => Starved
      end
  end
with parse_elems (fuel : nat) (s : text) (acc : list pyval) {struct fuel}
  : scan pyval :=
  match fuel with
  | O => Starved
  | S fuel' =>
      match scan_once fuel' s with
      | Found v s1 =>
          match skip_ws s1 with
          | c :: s2 =>
              if (c =? 93)%N then Found (PList (rev (v :: acc))) s2
              else if (c =? 44)%N then parse_elems fuel' (skip_ws s2) (v :: acc)
              else Bad
          | [] => Bad
          end
      | Bad => Bad
      | Starved => Starved
      end
  end.

(** [json.loads(s)] for a [str]: no byte-order mark, one value, and only
    blanks after it.  Every decode error is a [JSONDecodeError]. *)
Definition loads (s : text) : res pyval :=
  if match s with c :: _ => (c =? 65279)%N | [] => false end
  then Raise JSONDecodeError
  else
    match scan_once (2 * List.length s + 1) (skip_ws s) with
    | Found v rest =>
        match skip_ws rest with
        | [] => Ok v
        | _ :: _ => Raise JSONDecodeError
        end
    | Bad | Starved => Raise JSONDecodeError
    end.

End Json.

(* ===================================================================== *)
(** ** The environment *)
(* ===================================================================== *)

Module World.

(** How the serial port behaves during one write attempt of
    [send_command]: [reset_output_buffer], [write] and [flush] may each
    raise. *)
Inductive serial_fault := SerialOk | ResetFails | WriteFails | FlushFails.

(** What one [session.post] gives: an exception of [requests], or a
    response with its status code and the result of [response.json()]
    ([None] when the body does not decode). *)
Inductive http_reply :=
| Timeout
| RequestError
| Response (status_code : Z) (json_body : option pyval).

(** What the program does to the outside. *)
Inductive event :=
| SendCommand (command : text)        (* [send_command] entered *)
| SerialWrite (bytes : list N)        (* [serial_connection.write] returned *)
| HttpPost (system_content : pyval) (user_content : text)
| Sleep (seconds : Z)
| Print (out : text).                 (* console sink output *)

Record world := {
  serial_script : list serial_fault;  (* healthy once exhausted *)
  http_script : list http_reply;      (* timeouts once exhausted *)
  stdout_script : list bool;          (* [true]: the next [print] raises *)
  clock : text;                       (* [time.strftime("%H:%M:%S")] *)
  trace : list event                  (* oldest first *)
}.

(** Computations on the world. *)
Definition M (A : Type) := world -> A * world.

Definition ret {A} (a : A) : M A := fun w => (a, w).

Definition mbind {A B} (m : M A) (k : A -> M B) : M B :=
  fun w => let (a, w') := m w in k a w'.

Definition emit (e : event) : M unit := fun w =>
  (tt, {| serial_script := serial_script w; http_script := http_script w;
          stdout_script := stdout_script w; clock := clock w;
          trace := trace w ++ [e] |}).

Definition next_serial : M serial_fault := fun w =>
  match serial_script w with
  | f :: r =>
      (f, {| serial_script := r; http_script := http_script w;
             stdout_script := stdout_script w; clock := clock w;
             trace := trace w |})
  | [] => (SerialOk, w)
  end.

Definition next_http : M http_reply := fun w =>
  match http_script w with
  | f :: r =>
      (f, {| serial_script := serial_script w; http_script := r;
             stdout_script := stdout_script w; clock := clock w;
             trace := trace w |})
  | [] => (Timeout, w)
  end.

Definition next_stdout : M bool := fun w =>
  match stdout_script w with
  | f :: r =>
      (f, {| serial_script := serial_script w; http_script := http_script w;
             stdout_script := r; clock := clock w; trace := trace w |})
  | [] => (false, w)
  end.

Definition now : M text := fun w => (clock w, w).

End World.
Export World.

Declare Scope world_scope.
Delimit Scope world_scope with world.
Notation "x <- c ;; k" := (mbind c (fun x => k))
  (at level 61, c at next level, right associativity) : world_scope.
Notation "c ;;; k" := (mbind c (fun _ => k))
  (at level 61, right associativity) : world_scope.

(** The interface of [OutputHandler]: [send(text, metadata)] returns an
    object or raises (an [Exception]). *)
Definition handler := text -> option pydict -> M (res pyval).

(** [OutputHandler.send]: the base class does nothing and returns [None]. *)
Definition OutputHandler_send : handler :=
  fun _ _ => ret (Ok PNone).

(* ===================================================================== *)
(** ** [SimpleESP32Handler] *)
(* ===================================================================== *)

Module SimpleESP32Handler.

Local Open Scope world_scope.

Record t := {
  is_connected : bool;
  debug : bool
}.

Inductive encoding := Ascii | Utf8.

(** [message.encode(encoding)]; [None] stands for [UnicodeEncodeError]. *)
Definition encode_ascii (s : text) : option (list N) :=
  if forallb (fun c => (c <? 128)%N) s then Some s else None.

Definition utf8_char (c : char) : option (list N) :=
  if (c <? 128)%N then Some [c]
  else if (c <? 2048)%N then Some [192 + c / 64; 128 + c mod 64]%N
  else if ((55296 <=? c) && (c <=? 57343))%N then None
  else if (c <? 65536)%N
  then Some [224 + c / 4096; 128 + (c / 64) mod 64; 128 + c mod 64]%N
  else if (c <? 1114112)%N
  then Some [240 + c / 262144; 128 + (c / 4096) mod 64;
             128 + (c / 64) mod 64; 128 + c mod 64]%N
  else None.

Fixpoint encode_utf8 (s : text) : option (list N) :=
  match s with
  | [] => Some []
  | c :: r =>
      match utf8_char c, encode_utf8 r with
      | Some b, Some bs => Some (b ++ bs)
      | _, _ => None
      end
  end.

Definition encode (e : encoding) (s : text) : option (list N) :=
  match e with
  | Ascii => encode_ascii s
  | Utf8 => encode_utf8 s
  end.

(** The sentinel [parse_json_to_command] returns when it fails. *)
Definition move0 : text := lit "move0".

Definition newline_patterns : list text := [[10%N]; [13%N; 10%N]; [13%N]].

Definition default_encoding_list : list encoding := [Ascii; Utf8].

(** One pass of the inner [try] of [send_command]: [true] when the
    message was written and flushed, [false] when the attempt raised
    (and the loop goes on). *)
Definition write_attempt (command : text) (enc : encoding) (newline : text)
  : M bool :=
  let message := command ++ newline in
  f <- next_serial ;;
  match f with
  | ResetFails => ret false
  | _ =>
      match encode enc message with
      | None => ret false
      | Some encoded_message =>
          match f with
          | WriteFails => ret false
          | FlushFails => emit (SerialWrite encoded_message) ;;; ret false
          | _ => emit (SerialWrite encoded_message) ;;; ret true
          end
      end
  end.

(** The two nested [for] loops, left at the first attempt that succeeds. *)
Fixpoint try_patterns (command : text) (attempts : list (encoding * text))
  : M bool :=
  match attempts with
  | [] => ret false
  | (enc, newline) :: rest =>
      ok <- write_attempt command enc newline ;;
      if ok then ret true else try_patterns command rest
  end.

Definition send_command (self : t) (command : text)
    (encoding_list : list encoding) : M bool :=
  emit (SendCommand command) ;;;
  if negb (is_connected self) then ret false
  else
    let command := strip command in
    try_patterns command
      (flat_map (fun enc => map (fun nl => (enc, nl)) newline_patterns)
                encoding_list).

Section WithRuntime.
Context {R : Runtime}.

(** The body of the [try] of [parse_json_to_command]. *)
Definition convert (json_response : text) : res text :=
  bind (Json.loads (strip json_response)) (fun data =>
  match data with
  | PDict d =>
      let action := lower (py_str (dict_get d (lit "action") (PStr (lit "move")))) in
      bind (py_int (dict_get d (lit "degree") (PInt 0))) (fun degree =>
      Ok (action ++ str_of_int degree))
  | _ => Raise AttributeError              (* no [get] on this object *)
  end).

Definition parse_json_to_command (self : t) (json_response : text) : text :=
  match convert json_response with
  | Ok command => command
  | Raise JSONDecodeError => move0
  | Raise _ => move0
  end.

(** Truth value of [command_to_send]: [None] and the empty string are
    false. *)
Definition nonempty (c : option text) : bool :=
  match c with
  | Some (_ :: _) => true
  | _ => false
  end.

(** Lines 324-348 of [send]: the command [send] settles on. *)
Definition command_to_send (self : t) (text : text) : option PyText.text :=
  let json_match := search_braces text in
  let command_to_send :=
    match json_match with
    | Some json_str => Some (parse_json_to_command self json_str)
    | None => None
    end in
  if negb (nonempty command_to_send)
     || match command_to_send with
        | Some c => text_eqb c move0
        | None => false
        end
  then Some text
  else command_to_send.

Definition send (self : t) (text : pyval) (metadata : option pydict)
  : M bool :=
  let text := strip (py_str text) in
  let command_to_send := command_to_send self text in
  match command_to_send with
  | Some c =>
      if nonempty command_to_send && negb (text_eqb c move0)
      then send_command self c default_encoding_list
      else ret false
  | None => ret false
  end.

(** The handler as an [OutputHandler]. *)
Definition as_handler (self : t) : handler :=
  fun text metadata =>
    b <- send self (PStr text) metadata ;; ret (Ok (PBool b)).

End WithRuntime.

(** [send_raw_bytes]: the command is not stripped; it is encoded (ASCII
    only) before the port is touched, then written once with a line
    feed. *)
Definition send_raw_bytes (self : t) (command : text) : M bool :=
  if negb (is_connected self) then ret false
  else
    match encode_ascii command with
    | None => ret false                       (* [bytes(command, 'ascii')] *)
    | Some b =>
        let message_bytes := b ++ [10%N] in
        f <- next_serial ;;
        match f with
        | ResetFails | WriteFails => ret false
        | FlushFails => emit (SerialWrite message_bytes) ;;; ret false
        | SerialOk => emit (SerialWrite message_bytes) ;;; ret true
        end
    end.

(** [cleanup]: the connection is closed (errors ignored). *)
Definition cleanup (self : t) : t :=
  {| is_connected := false; debug := debug self |}.

(** *** Connecting *)

(** An entry of [serial.tools.list_ports.comports()]. *)
Record port_info := {
  device : text;
  description : text
}.

Definition esp32_keywords : list text :=
  [lit "CH340"; lit "CP2102"; lit "ESP32"; lit "serial"; lit "USB Serial";
   lit "Arduino"].

(** [str.upper] on the code points up to U+00FF: a-z and the Latin-1
    small letters go to their capitals, the sharp s to [SS], the micro
    sign and the y with diaeresis to capitals beyond U+00FF. *)
Definition upper_latin1 (c : char) : text :=
  if ((97 <=? c) && (c <=? 122)
      || (224 <=? c) && (c <=? 254) && negb (c =? 247))%N
  then [(c - 32)%N]
  else if (c =? 181)%N then [924%N]
  else if (c =? 223)%N then [83%N; 83%N]
  else if (c =? 255)%N then [376%N]
  else [c].

(** [needle in s] *)
Fixpoint occurs_in (needle s : text) : bool :=
  match Json.strip_prefix needle s with
  | Some _ => true
  | None =>
      match s with
      | [] => false
      | _ :: r => occurs_in needle r
      end
  end.

Section Ports.
(** [str.upper] beyond U+00FF, from the tables of the interpreter. *)
Variable upper_wide : text -> text.

(** [s.upper()] *)
Definition upper (s : text) : text :=
  if is_latin1 s then flat_map upper_latin1 s else upper_wide s.

(** Does a port look like an ESP32: some keyword, upper-cased, occurs in
    its upper-cased description. *)
Definition looks_like_esp32 (p : port_info) : bool :=
  existsb (fun keyword => occurs_in (upper keyword) (upper (description p)))
          esp32_keywords.

(** [find_esp32_port] over the ports the system lists. *)
Fixpoint find_esp32_port (ports : list port_info) : option text :=
  match ports with
  | [] => None
  | port_info :: rest =>
      if looks_like_esp32 port_info then Some (device port_info)
      else find_esp32_port rest
  end.

(** What the system says when the handler is built: the ports it lists,
    and whether [serial.Serial] opens a given port (it raises
    otherwise). *)
Record serial_env := {
  comports : list port_info;
  opens : text -> bool
}.

(** [_test_connection]: buffers reset, ["test\n"] written and flushed;
    every exception is swallowed. *)
Definition _test_connection : M unit :=
  f <- next_serial ;;
  match f with
  | ResetFails | WriteFails => ret tt
  | FlushFails | SerialOk => emit (SerialWrite (lit "test" ++ [10%N])) ;;; ret tt
  end.

(** [_connect] on a fresh object: the handler, the port it settled on and
    the value returned. *)
Definition _connect (env : serial_env) (port : option text) (debug : bool)
  : M (t * option text * bool) :=
  let port :=
    match port with
    | Some (_ :: _) => port
    | _ => find_esp32_port (comports env)        (* [if not self.port] *)
    end in
  match port with
  | Some ((_ :: _) as p) =>
      if opens env p then
        (if debug then _test_connection else ret tt) ;;;
        ret ({| is_connected := true; debug := debug |}, port, true)
      else ret ({| is_connected := false; debug := debug |}, port, false)
  | _ => ret ({| is_connected := false; debug := debug |}, port, false)
  end.

(** [SimpleESP32Handler(port, baudrate, debug)] *)
Definition __init__ (env : serial_env) (port : option text) (debug : bool)
  : M (t * option text) :=
  r <- _connect env port debug ;;
  ret (fst r).

End Ports.

End SimpleESP32Handler.

(* ===================================================================== *)
(** ** [ConsoleOutputHandler] *)
(* ===================================================================== *)

Module ConsoleOutputHandler.

Local Open Scope world_scope.

Record t := {
  show_partial : bool;
  show_final : bool
}.

(** [msg_type == 'partial'] and the like: equal to that [str]. *)
Definition is_str (v : pyval) (s : text) : bool :=
  match v with
  | PStr s' => text_eqb s' s
  | _ => false
  end.

(** The format [{text:<60}]: left-justified in 60 columns. *)
Definition ljust60 (s : text) : text :=
  s ++ repeat 32%N (60 - List.length s).

(** [print(...)]: writes the line, or raises. *)
Definition print (out : text) : M (res unit) :=
  raises <- next_stdout ;;
  if raises then ret (Raise ValueError)
  else emit (Print out) ;;; ret (Ok tt).

Definition send (self : t) (text : text) (metadata : option pydict)
  : M (res pyval) :=
  let msg_type :=
    match metadata with
    | Some ((_ :: _) as d) => dict_get d (lit "type") (PStr (lit "unknown"))
    | _ => PStr (lit "unknown")
    end in
  timestamp <- now ;;
  printed <-
    (if is_str msg_type (lit "partial") && show_partial self then
       print ([13%N] ++ lit "[" ++ timestamp ++ lit "] " ++ ljust60 text)
     else if is_str msg_type (lit "final") && show_final self then
       print ([10%N] ++ lit "[" ++ timestamp ++ lit "] " ++ text ++ [10%N])
     else if is_str msg_type (lit "complete") then
       print ([10%N] ++ lit "[" ++ timestamp ++ lit "] 最終: " ++ text ++ [10%N])
     else ret (Ok tt)) ;;
  match printed with
  | Ok _ => ret (Ok (PBool true))
  | Raise _ => ret (Ok (PBool false))        (* [except Exception] *)
  end.

End ConsoleOutputHandler.

(* ===================================================================== *)
(** ** [OpenAIAPIHandler] *)
(* ===================================================================== *)

Module OpenAIAPIHandler.

Local Open Scope world_scope.

Record t := {
  api_key : text;
  model : text;
  system_prompt : option text;
  timeout : Z;
  retry_count : Z;
  esp32_handler : option SimpleESP32Handler.t
}.

(** [range(n)] *)
Definition range (n : Z) : list Z := map Z.of_nat (seq 0 (Z.to_nat n)).

(** [v[k]] for a [str] key. *)
Definition getitem (v : pyval) (k : text) : res pyval :=
  match v with
  | PDict d =>
      match dict_lookup d k with
      | Some x => Ok x
      | None => Raise KeyError
      end
  | _ => Raise TypeError
  end.

(** [v[0]] *)
Definition getitem0 (v : pyval) : res pyval :=
  match v with
  | PList (x :: _) => Ok x
  | PList [] => Raise IndexError
  | PStr (c :: _) => Ok (PStr [c])
  | PStr [] => Raise IndexError
  | PDict _ => Raise KeyError
  | _ => Raise TypeError
  end.

Section WithRuntime.
Context {R : Runtime}.

(** The two fields of the payload that depend on the call: the system
    message content (with the metadata appended) and the user message. *)
Definition payload (self : t) (text : text) (metadata : option pydict)
  : res (pyval * PyText.text) :=
  let user := lit "音声認識結果: " ++ text in
  let system := match system_prompt self with
                | Some s => PStr s
                | None => PNone
                end in
  match metadata with
  | Some ((_ :: _) as md) =>
      let context_info :=
        [10%N; 10%N] ++ lit "追加情報:" ++ [10%N]
        ++ (if truthy (dict_get md (lit "datetime") PNone)
            then lit "- 時刻: " ++ py_str (dict_get md (lit "datetime") PNone)
                 ++ [10%N]
            else [])
        ++ (if truthy (dict_get md (lit "type") PNone)
            then lit "- 認識タイプ: " ++ py_str (dict_get md (lit "type") PNone)
                 ++ [10%N]
            else []) in
      match system with
      | PStr s => Ok (PStr (s ++ context_info), user)
      | _ => Raise TypeError                    (* [None += str] *)
      end
  | _ => Ok (system, user)
  end.

(** What a 200 response must carry:
    [result['choices'][0]['message']['content']] and
    [result['usage']['total_tokens']]. *)
Definition read_result (result : pyval) : res pyval :=
  bind (getitem result (lit "choices")) (fun choices =>
  bind (getitem0 choices) (fun choice =>
  bind (getitem choice (lit "message")) (fun message =>
  bind (getitem message (lit "content")) (fun ai_response =>
  bind (getitem result (lit "usage")) (fun usage =>
  bind (getitem usage (lit "total_tokens")) (fun _ =>
  Ok ai_response)))))).

(** The retry loop, [for attempt in range(self.retry_count)]. *)
Fixpoint attempts (self : t) (system : pyval) (user : text)
    (todo : list Z) : M (res bool) :=
  match todo with
  | [] => ret (Ok false)
  | attempt :: rest =>
      emit (HttpPost system user) ;;;
      reply <- next_http ;;
      let backoff :=
        (if (attempt <? retry_count self - 1)%Z
         then emit (Sleep (2 ^ attempt)) else ret tt) ;;;
        attempts self system user rest in
      match reply with
      | Response status_code body =>
          if (status_code =? 200)%Z then
            match body with
            | Some result =>
                match read_result result with
                | Ok ai_response =>
                    match esp32_handler self with
                    | Some esp32 =>
                        SimpleESP32Handler.send esp32 ai_response None ;;;
                        ret (Ok true)
                    | None => ret (Ok true)
                    end
                | Raise e => ret (Raise e)       (* not caught *)
                end
            | None => backoff                   (* [JSONDecodeError] *)
            end
          else if (status_code =? 401)%Z then ret (Ok false)
          else backoff
      | Timeout | RequestError => backoff
      end
  end.

Definition send (self : t) (text : text) (metadata : option pydict)
  : M (res bool) :=
  match payload self text metadata with
  | Raise e => ret (Raise e)
  | Ok (system, user) => attempts self system user (range (retry_count self))
  end.

Definition as_handler (self : t) : handler :=
  fun text metadata =>
    r <- send self text metadata ;;
    ret (match r with
         | Ok b => Ok (PBool b)
         | Raise e => Raise e
         end).

End WithRuntime.

End OpenAIAPIHandler.

(* ===================================================================== *)
(** ** [MultiOutputHandler] *)
(* ===================================================================== *)

Module MultiOutputHandler.

Local Open Scope world_scope.

(** The [for] loop of [send]: one entry of [results] per handler, [False]
    for a handler that raised. *)
Fixpoint collect (handlers : list handler) (text : text)
    (metadata : option pydict) : M (list pyval) :=
  match handlers with
  | [] => ret []
  | h :: rest =>
      r <- h text metadata ;;
      results <- collect rest text metadata ;;
      ret (match r with
           | Ok result => result
           | Raise _ => PBool false
           end :: results)
  end.

(** [any(results)] *)
Definition any (results : list pyval) : bool := existsb truthy results.

Definition send (handlers : list handler) (text : text)
    (metadata : option pydict) : M bool :=
  results <- collect handlers text metadata ;;
  ret (any results).

Definition as_handler (handlers : list handler) : handler :=
  fun text metadata =>
    b <- send handlers text metadata ;; ret (Ok (PBool b)).





End MultiOutputHandler.

(* ===================================================================== *)
(** ** [VoskSTTEngine] *)
(* ===================================================================== *)

Module VoskSTTEngine.

(** A [threading.Timer]: waiting to fire, or over (fired or cancelled). *)
Inductive timer := TimerArmed | TimerOver.

(** The engine object.  [stop_event] is the [threading.Event],
    [stream_active] is [stream.is_active()], [audio_thread] holds
    [is_alive()] of the capture thread, and [on_*] say which callbacks
    are set. *)
Record t := {
  is_initialized : bool;
  is_listening : bool;
  is_running : bool;
  shutdown_requested : bool;
  stop_event : bool;
  stream_active : bool;
  auto_stop_duration : option Z;
  auto_stop_timer : option timer;
  audio_thread : option bool;
  on_partial_result : bool;
  on_final_result : bool;
  on_complete_result : bool;
  on_error : bool;
  on_status_change : bool
}.

(** Calls of the callbacks, in order. *)
Inductive callback :=
| OnPartial (text : text)
| OnFinal (text : text)
| OnComplete (text : text)
| OnError (message : text)
| OnStatus (name : text).

(** Result of a method: the engine afterwards, the callbacks it made, and
    whether it returned or raised. *)
Definition outcome := (t * list callback * res unit)%type.

(** The engine right after a successful [__init__]: stream opened and
    stopped. *)
Definition initialized : t :=
  {| is_initialized := true; is_listening := false; is_running := false;
     shutdown_requested := false; stop_event := false;
     stream_active := false; auto_stop_duration := None;
     auto_stop_timer := None; audio_thread := None;
     on_partial_result := false; on_final_result := false;
     on_complete_result := false; on_error := false;
     on_status_change := false |}.

Definition set_callbacks (on_partial on_final on_complete on_err on_status : bool)
    (self : t) : t :=
  {| is_initialized := is_initialized self; is_listening := is_listening self;
     is_running := is_running self;
     shutdown_requested := shutdown_requested self;
     stop_event := stop_event self; stream_active := stream_active self;
     auto_stop_duration := auto_stop_duration self;
     auto_stop_timer := auto_stop_timer self;
     audio_thread := audio_thread self;
     on_partial_result := on_partial || on_partial_result self;
     on_final_result := on_final || on_final_result self;
     on_complete_result := on_complete || on_complete_result self;
     on_error := on_err || on_error self;
     on_status_change := on_status || on_status_change self |}.

Definition set_auto_stop_duration (seconds : option Z) (self : t) : t :=
  {| is_initialized := is_initialized self; is_listening := is_listening self;
     is_running := is_running self;
     shutdown_requested := shutdown_requested self;
     stop_event := stop_event self; stream_active := stream_active self;
     auto_stop_duration := seconds;
     auto_stop_timer := auto_stop_timer self;
     audio_thread := audio_thread self;
     on_partial_result := on_partial_result self;
     on_final_result := on_final_result self;
     on_complete_result := on_complete_result self;
     on_error := on_error self;
     on_status_change := on_status_change self |}.

(** Field updates. *)
Definition with_flags (listening running shutdown event : bool) (self : t) : t :=
  {| is_initialized := is_initialized self; is_listening := listening;
     is_running := running; shutdown_requested := shutdown;
     stop_event := event; stream_active := stream_active self;
     auto_stop_duration := auto_stop_duration self;
     auto_stop_timer := auto_stop_timer self;
     audio_thread := audio_thread self;
     on_partial_result := on_partial_result self;
     on_final_result := on_final_result self;
     on_complete_result := on_complete_result self;
     on_error := on_error self;
     on_status_change := on_status_change self |}.

Definition with_stream (active : bool) (self : t) : t :=
  {| is_initialized := is_initialized self; is_listening := is_listening self;
     is_running := is_running self;
     shutdown_requested := shutdown_requested self;
     stop_event := stop_event self; stream_active := active;
     auto_stop_duration := auto_stop_duration self;
     auto_stop_timer := auto_stop_timer self;
     audio_thread := audio_thread self;
     on_partial_result := on_partial_result self;
     on_final_result := on_final_result self;
     on_complete_result := on_complete_result self;
     on_error := on_error self;
     on_status_change := on_status_change self |}.

Definition with_timer (tm : option timer) (self : t) : t :=
  {| is_initialized := is_initialized self; is_listening := is_listening self;
     is_running := is_running self;
     shutdown_requested := shutdown_requested self;
     stop_event := stop_event self; stream_active := stream_active self;
     auto_stop_duration := auto_stop_duration self;
     auto_stop_timer := tm;
     audio_thread := audio_thread self;
     on_partial_result := on_partial_result self;
     on_final_result := on_final_result self;
     on_complete_result := on_complete_result self;
     on_error := on_error self;
     on_status_change := on_status_change self |}.

Definition with_thread (th : option bool) (self : t) : t :=
  {| is_initialized := is_initialized self; is_listening := is_listening self;
     is_running := is_running self;
     shutdown_requested := shutdown_requested self;
     stop_event := stop_event self; stream_active := stream_active self;
     auto_stop_duration := auto_stop_duration self;
     auto_stop_timer := auto_stop_timer self;
     audio_thread := th;
     on_partial_result := on_partial_result self;
     on_final_result := on_final_result self;
     on_complete_result := on_complete_result self;
     on_error := on_error self;
     on_status_change := on_status_change self |}.

(** A callback is called only when it is set. *)
Definition call (set : bool) (c : callback) : list callback :=
  if set then [c] else [].

(** [timer and timer.is_alive()] *)
Definition timer_alive (tm : option timer) : bool :=
  match tm with
  | Some TimerArmed => true
  | _ => false
  end.

(** [thread and thread.is_alive()] *)
Definition thread_alive (th : option bool) : bool :=
  match th with
  | Some alive => alive
  | None => false
  end.

(** [_auto_stop_callback]: the watchdog only sets the event. *)
Definition _auto_stop_callback (self : t) : t :=
  if is_listening self && negb (shutdown_requested self)
  then with_flags (is_listening self) (is_running self)
                  (shutdown_requested self) true self
  else self.

(** [start_listening]; [stream_fails] says whether the stream call
    raises. *)
Definition start_listening (stream_fails : bool) (self : t) : outcome :=
  if negb (is_initialized self) then (self, [], Raise RuntimeError)
  else if is_listening self then (self, [], Ok tt)
  else
    let s1 := with_flags true true false false self in
    if stream_fails then (s1, [], Raise OSError)
    else
      let s2 := if stream_active s1 then s1 else with_stream true s1 in
      let s3 := with_thread (Some true) s2 in
      let s4 :=
        match auto_stop_duration s3 with
        | Some d => if (d =? 0)%Z then s3 else with_timer (Some TimerArmed) s3
        | None => s3
        end in
      (s4, call (on_status_change s4) (OnStatus (lit "listening_started")),
       Ok tt).

(** What the environment does during one [stop_listening]: whether the
    stream call raises, whether the capture thread ends within the join
    timeout, and what [recognizer.FinalResult()] returns. *)
Record stop_env := {
  stream_fails : bool;
  thread_ends_in_time : bool;
  final_result : text
}.

(** [result.get(key, '').strip()] of a decoded recognizer result. *)
Definition result_text (json : text) (key : text) : res text :=
  bind (Json.loads json) (fun v =>
  match v with
  | PDict d =>
      match dict_get d key (PStr []) with
      | PStr s => Ok (strip s)
      | _ => Raise AttributeError
      end
  | _ => Raise AttributeError
  end).

Definition nonblank (s : text) : bool :=
  match s with
  | [] => false
  | _ :: _ => true
  end.

(** [_safe_get_final_result] *)
Definition _safe_get_final_result (env : stop_env) (self : t) : list callback :=
  match result_text (final_result env) (lit "text") with
  | Ok text =>
      if nonblank text then call (on_complete_result self) (OnComplete text)
      else []
  | Raise _ => call (on_error self) (OnError (lit "最終結果取得エラー"))
  end.

(** [stop_listening] *)
Definition stop_listening (env : stop_env) (self : t) : outcome :=
  if negb (is_listening self) then (self, [], Ok tt)
  else
    let s1 := with_flags false (is_running self) true true self in
    if stream_fails env then (s1, [], Raise OSError)
    else
      let s2 := if stream_active s1 then with_stream false s1 else s1 in
      let s3 := if timer_alive (auto_stop_timer s2)
                then with_timer None s2 else s2 in
      let s4 := if thread_alive (audio_thread s3)
                then with_thread (Some (negb (thread_ends_in_time env))) s3
                else s3 in
      (s4,
       _safe_get_final_result env s4
       ++ call (on_status_change s4) (OnStatus (lit "listening_stopped")),
       Ok tt).

(** [stop_listening] in its two parts, as the capture thread can see
    them: what is done under [_state_lock] (lines 200-208: the flags and
    the stop event), and what is done after the lock is released (lines
    209-231: the stream, the timer, the join, the final result). *)
Definition stop_listening_locked (self : t) : t :=
  with_flags false (is_running self) true true self.

Definition stop_listening_unlocked (env : stop_env) (s1 : t) : outcome :=
  if stream_fails env then (s1, [], Raise OSError)
  else
    let s2 := if stream_active s1 then with_stream false s1 else s1 in
    let s3 := if timer_alive (auto_stop_timer s2)
              then with_timer None s2 else s2 in
    let s4 := if thread_alive (audio_thread s3)
              then with_thread (Some (negb (thread_ends_in_time env))) s3
              else s3 in
    (s4,
     _safe_get_final_result env s4
     ++ call (on_status_change s4) (OnStatus (lit "listening_stopped")),
     Ok tt).

(** What one pass of the capture loop meets when it reads the stream. *)
Inductive capture :=
| NoData                              (* nothing available *)
| Utterance (result : text)           (* [AcceptWaveform] true, [Result()] *)
| Guess (partial : text)              (* [PartialResult()] *)
| ReadError (message : text).         (* an exception, with its [str] *)

Fixpoint is_prefix (p s : text) : bool :=
  match p, s with
  | [], _ => true
  | a :: p', b :: s' => (a =? b)%N && is_prefix p' s'
  | _ :: _, [] => false
  end.

(** [needle in s] *)
Fixpoint contains (needle s : text) : bool :=
  is_prefix needle s
  || match s with
     | [] => false
     | _ :: r => contains needle r
     end.

(** One pass of [while True:] in [_audio_processing_loop]: the engine, the
    callbacks made, and whether the loop goes on ([true]) or is left. *)
Definition loop_pass (c : capture) (self : t) : t * list callback * bool :=
  if stop_event self then (self, [], false)
  else if negb (is_running self) || negb (is_listening self)
          || shutdown_requested self
  then (self, [], false)
  else
    let failed := (self, call (on_error self) (OnError (lit "音声処理エラー")), false) in
    match c with
    | NoData => (self, [], true)
    | Utterance result =>
        match result_text result (lit "text") with
        | Ok text =>
            (self,
             if nonblank text then call (on_final_result self) (OnFinal text)
             else [],
             true)
        | Raise _ => failed
        end
    | Guess partial =>
        match result_text partial (lit "partial") with
        | Ok text =>
            (self,
             if nonblank text then call (on_partial_result self) (OnPartial text)
             else [],
             true)
        | Raise _ => failed
        end
    | ReadError message =>
        if contains (lit "Input overflowed") message then (self, [], true)
        else failed
    end.

(** [_audio_processing_loop] over the passes the environment provides:
    [Some] when the loop was left (the thread is then over), [None] when it
    is still running after the last of them. *)
Fixpoint _audio_processing_loop (passes : list capture) (self : t)
  : option (t * list callback) :=
  match passes with
  | [] => None
  | c :: rest =>
      let '(s1, out, goes_on) := loop_pass c self in
      if goes_on then
        match _audio_processing_loop rest s1 with
        | Some (s2, out') => Some (s2, out ++ out')
        | None => None
        end
      else Some (with_thread (Some false) s1, out)
  end.

(** The engine and its threads, one step at a time: a call from the
    control thread, the watchdog firing, or one pass of the capture
    thread. *)
Inductive action :=
| Start (stream_fails : bool)
| Stop (env : stop_env)
| TimerFires
| CapturePass (c : capture).

Definition step (a : action) (self : t) : t * list callback :=
  match a with
  | Start f => let '(s, out, _) := start_listening f self in (s, out)
  | Stop env => let '(s, out, _) := stop_listening env self in (s, out)
  | TimerFires =>
      if timer_alive (auto_stop_timer self)
      then (with_timer (Some TimerOver) (_auto_stop_callback self), [])
      else (self, [])
  | CapturePass c =>
      if thread_alive (audio_thread self) then
        let '(s, out, goes_on) := loop_pass c self in
        (if goes_on then s else with_thread (Some false) s, out)
      else (self, [])
  end.

Fixpoint run (actions : list action) (self : t) : t * list callback :=
  match actions with
  | [] => (self, [])
  | a :: rest =>
      let '(s1, out) := step a self in
      let '(s2, out') := run rest s1 in
      (s2, out ++ out')
  end.

(** What the environment does during one [cleanup]: whether a stream
    call raises (caught and logged) and whether the capture thread ends
    within the join timeout. *)
Record cleanup_env := {
  stream_call_fails : bool;
  thread_ends_in_3s : bool
}.

(** [cleanup] *)
Definition cleanup (env : cleanup_env) (self : t) : t * list callback :=
  let s1 := with_flags false false true true self in
  let s2 := if timer_alive (auto_stop_timer s1)
            then with_timer None s1 else s1 in
  let s3 := if thread_alive (audio_thread s2)
            then with_thread (Some (negb (thread_ends_in_3s env))) s2
            else s2 in
  let s4 := if stream_call_fails env then s3 else with_stream false s3 in
  (s4, call (on_status_change s4) (OnStatus (lit "cleaned_up"))).

(** An entry of [get_device_info_by_index]. *)
Record device_info := {
  name : text;
  maxInputChannels : Z
}.

(** [get_audio_devices]: index, name and channels of the devices with an
    input channel; [None] is an engine without audio interface. *)
Fixpoint devices_from (i : nat) (infos : list device_info)
  : list (nat * text * Z) :=
  match infos with
  | [] => []
  | info :: rest =>
      if (0 <? maxInputChannels info)%Z
      then (i, name info, maxInputChannels info) :: devices_from (S i) rest
      else devices_from (S i) rest
  end.

Definition get_audio_devices (audio_interface : option (list device_info))
  : list (nat * text * Z) :=
  match audio_interface with
  | None => []
  | Some infos => devices_from 0 infos
  end.


End VoskSTTEngine.

(* ===================================================================== *)
(** ** [STTOutputManager] *)
(* ===================================================================== *)

Module STTOutputManager.

Local Open Scope world_scope.

Record t := {
  partial_handler : list handler;
  final_handler : list handler;
  complete_handler : list handler
}.

(** [STTOutputManager()]: one console handler, registered three times. *)
Definition __init__ : t :=
  let console_handler :=
    ConsoleOutputHandler.send
      {| ConsoleOutputHandler.show_partial := false;
         ConsoleOutputHandler.show_final := true |} in
  {| partial_handler := [console_handler];
     final_handler := [console_handler];
     complete_handler := [console_handler] |}.

Definition add_partial_handler (h : handler) (self : t) : t :=
  {| partial_handler := partial_handler self ++ [h];
     final_handler := final_handler self;
     complete_handler := complete_handler self |}.

Definition add_final_handler (h : handler) (self : t) : t :=
  {| partial_handler := partial_handler self;
     final_handler := final_handler self ++ [h];
     complete_handler := complete_handler self |}.

Definition add_complete_handler (h : handler) (self : t) : t :=
  {| partial_handler := partial_handler self;
     final_handler := final_handler self;
     complete_handler := complete_handler self ++ [h] |}.

(** The [if target == ...] chain of [add_file_handler] and
    [add_openai_handler]. *)
Definition add_for_target (target : text) (h : handler) (self : t) : t :=
  if text_eqb target (lit "partial") then add_partial_handler h self
  else if text_eqb target (lit "final") then add_final_handler h self
  else if text_eqb target (lit "complete") then add_complete_handler h self
  else if text_eqb target (lit "all")
  then add_complete_handler h (add_final_handler h (add_partial_handler h self))
  else self.

Section WithRuntime.
Context {R : Runtime}.

(** [add_openai_handler]; the handler gets the default [timeout] and
    [retry_count]. *)
Definition add_openai_handler (api_key target model : text)
    (system_prompt : option text)
    (esp32_handler : option SimpleESP32Handler.t) (self : t) : t :=
  add_for_target target
    (OpenAIAPIHandler.as_handler
       {| OpenAIAPIHandler.api_key := api_key;
          OpenAIAPIHandler.model := model;
          OpenAIAPIHandler.system_prompt := system_prompt;
          OpenAIAPIHandler.timeout := 30;
          OpenAIAPIHandler.retry_count := 3;
          OpenAIAPIHandler.esp32_handler := esp32_handler |})
    self.

(** [add_simple_esp32_handler]: the manager afterwards and the value
    returned ([None] when the handler is not connected). *)
Definition add_simple_esp32_handler (upper_wide : text -> text)
    (env : SimpleESP32Handler.serial_env) (port : option text) (target : text)
    (self : t) : M (t * option SimpleESP32Handler.t) :=
  r <- SimpleESP32Handler.__init__ upper_wide env port true ;;
  let esp32_handler := fst r in
  if SimpleESP32Handler.is_connected esp32_handler then
    ret (if text_eqb target (lit "final")
         then add_final_handler (SimpleESP32Handler.as_handler esp32_handler) self
         else if text_eqb target (lit "complete")
         then add_complete_handler (SimpleESP32Handler.as_handler esp32_handler) self
         else self,
         Some esp32_handler)
  else ret (self, None).

End WithRuntime.

(** [handle_partial_result], [handle_final_result],
    [handle_complete_result]: the result of the dispatch is dropped. *)
Definition handle_partial_result (self : t) (text : text) : M unit :=
  MultiOutputHandler.send (partial_handler self) text
    (Some [(lit "type", PStr (lit "partial"))]) ;;; ret tt.

Definition handle_final_result (self : t) (text : text) : M unit :=
  MultiOutputHandler.send (final_handler self) text
    (Some [(lit "type", PStr (lit "final"))]) ;;; ret tt.

Definition handle_complete_result (self : t) (text : text) : M unit :=
  MultiOutputHandler.send (complete_handler self) text
    (Some [(lit "type", PStr (lit "complete"))]) ;;; ret tt.

End STTOutputManager.

(* ===================================================================== *)
(** ** [json.dumps] and [FileOutputHandler] *)
(* ===================================================================== *)

Module FileOutputHandler.

(** The escapes of [json.dumps(..., ensure_ascii=False)]: quote,
    backslash and the characters below U+0020. *)
Definition hex_digit (n : N) : char :=
  if (n <? 10)%N then (48 + n)%N else (87 + n)%N.

Definition escape_char (c : char) : text :=
  if (c =? 34)%N then [92; 34]%N
  else if (c =? 92)%N then [92; 92]%N
  else if (c =? 10)%N then [92; 110]%N
  else if (c =? 13)%N then [92; 114]%N
  else if (c =? 9)%N then [92; 116]%N
  else if (c =? 8)%N then [92; 98]%N
  else if (c =? 12)%N then [92; 102]%N
  else if (c <? 32)%N
  then [92; 117; 48; 48; hex_digit (c / 16); hex_digit (c mod 16)]%N
  else [c].

Definition quote (s : text) : text :=
  [34%N] ++ flat_map escape_char s ++ [34%N].

Section WithRuntime.
Context {R : Runtime}.

(** [json.dumps(v, ensure_ascii=False)] *)
Fixpoint dumps (v : pyval) : text :=
  match v with
  | PNone => lit "null"
  | PBool true => lit "true"
  | PBool false => lit "false"
  | PInt z => str_of_int z
  | PFloat (FFinite _ _ _) => repr_other v
  | PFloat (FInf false) => lit "Infinity"
  | PFloat (FInf true) => lit "-Infinity"
  | PFloat FNaN => lit "NaN"
  | PStr s => quote s
  | PList l =>
      [91%N]
      ++ (fix items (l : list pyval) : text :=
            match l with
            | [] => []
            | [x] => dumps x
            | x :: r => dumps x ++ [44; 32]%N ++ items r
            end) l
      ++ [93%N]
  | PDict d =>
      [123%N]
      ++ (fix members (d : list (text * pyval)) : text :=
            match d with
            | [] => []
            | [(k, x)] => quote k ++ [58; 32]%N ++ dumps x
            | (k, x) :: r => quote k ++ [58; 32]%N ++ dumps x ++ [44; 32]%N ++ members r
            end) d
      ++ [125%N]
  end.

Record t := {
  file_path : text;
  format : text
}.

(** [FileOutputHandler(file_path, format)] *)
Definition __init__ (file_path format : text) : t :=
  {| file_path := file_path; format := lower format |}.

(** The files: which paths can be opened for appending, and the bytes
    each existing file holds. *)
Record disk := {
  openable : text -> bool;
  files : list (text * list N)
}.

Fixpoint content (fs : list (text * list N)) (path : text) : option (list N) :=
  match fs with
  | [] => None
  | (p, c) :: r => if text_eq_dec p path then Some c else content r path
  end.

Fixpoint append_to (fs : list (text * list N)) (path : text) (bytes : list N)
  : list (text * list N) :=
  match fs with
  | [] => [(path, bytes)]
  | (p, c) :: r =>
      if text_eq_dec p path then (p, c ++ bytes) :: r
      else (p, c) :: append_to r path bytes
  end.

(** [with open(path, 'a', encoding='utf-8') as f: f.write(s)]: [None] when
    an exception is raised.  Opening creates the file; a string that
    cannot be encoded raises after that. *)
Definition append (d : disk) (path : text) (s : text) : option unit * disk :=
  if negb (openable d path) then (None, d)
  else
    match SimpleESP32Handler.encode_utf8 s with
    | Some bytes =>
        (Some tt, {| openable := openable d; files := append_to (files d) path bytes |})
    | None =>
        (None, {| openable := openable d; files := append_to (files d) path [] |})
    end.

(** [data.update(metadata)] *)
Definition update (data metadata : pydict) : pydict :=
  fold_left (fun d kv => dict_set d (fst kv) (snd kv)) metadata data.

(** The record written in the JSON format. *)
Definition record (timestamp text : text) (metadata : option pydict) : pydict :=
  let data := [(lit "timestamp", PStr timestamp); (lit "text", PStr text)] in
  match metadata with
  | Some ((_ :: _) as md) => update data md
  | _ => data
  end.

(** [send]; [timestamp] is [time.strftime("%Y-%m-%d %H:%M:%S")]. *)
Definition send (self : t) (text : text) (metadata : option pydict)
    (timestamp : PyText.text) (d : disk) : bool * disk :=
  if text_eqb (format self) (lit "json") then
    match append d (file_path self)
            (dumps (PDict (record timestamp text metadata)) ++ [10%N]) with
    | (Some _, d') => (true, d')
    | (None, d') => (false, d')
    end
  else if text_eqb (format self) (lit "text") then
    match append d (file_path self)
            (lit "[" ++ timestamp ++ lit "] " ++ text ++ [10%N]) with
    | (Some _, d') => (true, d')
    | (None, d') => (false, d')
    end
  else (true, d).

End WithRuntime.

End FileOutputHandler.

(* ===================================================================== *)
(** ** Notions the statements below are written with *)
(* ===================================================================== *)

Module Spec.

(** A literal with every apostrophe read as a double quote, to write JSON
    text: [json "{'degree':5}"]. *)
Definition json (s : string) : text :=
  map (fun c => if (c =? 39)%N then 34%N else c) (lit s).

(** A runtime to evaluate examples on: the examples below keep to text
    for which the three tables are never consulted. *)
Definition plain_runtime : Runtime :=
  {| lower_wide := fun s => s;
     int_wide := fun _ => None;
     repr_other := fun _ => lit "<object>" |}.

(** A world in which the port and the console are healthy, no HTTP reply
    is scripted, and nothing has happened yet. *)
Definition quiet : world :=
  {| serial_script := []; http_script := []; stdout_script := [];
     clock := lit "12:00:00"; trace := [] |}.

Definition with_http (replies : list http_reply) (w : world) : world :=
  {| serial_script := serial_script w; http_script := replies;
     stdout_script := stdout_script w; clock := clock w; trace := trace w |}.

Definition connected : SimpleESP32Handler.t :=
  {| SimpleESP32Handler.is_connected := true;
     SimpleESP32Handler.debug := true |}.







(** Running every handler of a list in turn, each on the world its
    predecessors left, whatever they return or raise. *)
Inductive delivered (text : text) (metadata : option pydict)
  : list handler -> world -> list (res pyval) -> world -> Prop :=
| delivered_nil w : delivered text metadata [] w [] w
| delivered_cons h hs w o w1 os w2 :
    h text metadata w = (o, w1) ->
    delivered text metadata hs w1 os w2 ->
    delivered text metadata (h :: hs) w (o :: os) w2.

(** A handler's call counts as a success when it returned a true
    object. *)
Definition succeeded (o : res pyval) : bool :=
  match o with
  | Ok v => truthy v
  | Raise _ => false
  end.

(** Replies of the completion endpoint, as the retry loop sorts them.
    A usable reply has status 200 and a body that decodes and carries the
    fields the handler reads. *)
Definition usable (r : http_reply) : bool :=
  match r with
  | Response status (Some result) =>
      (status =? 200)%Z
      && match OpenAIAPIHandler.read_result result with
         | Ok _ => true
         | Raise _ => false
         end
  | _ => false
  end.


(** A reply after which the loop goes on to the next attempt: a timeout,
    a request error, a 200 whose body does not decode, or any status other
    than 200 and 401. *)
Definition retried (r : http_reply) : bool :=
  match r with
  | Timeout | RequestError => true
  | Response status body =>
      if (status =? 200)%Z
      then match body with None => true | Some _ => false end
      else negb (status =? 401)%Z
  end.

(** The reply to the [k]-th POST of a call made in world [w]. *)
Definition reply_at (w : world) (k : nat) : http_reply :=
  nth k (http_script w) Timeout.

(** The reference configuration, with and without an actuator handler. *)
Definition remote (esp32 : option SimpleESP32Handler.t) : OpenAIAPIHandler.t :=
  {| OpenAIAPIHandler.api_key := lit "sk-test";
     OpenAIAPIHandler.model := lit "gpt-4o-mini";
     OpenAIAPIHandler.system_prompt := Some (lit "You control a window.");
     OpenAIAPIHandler.timeout := 30;
     OpenAIAPIHandler.retry_count := 3;
     OpenAIAPIHandler.esp32_handler := esp32 |}.


(** A completion whose content is the given text. *)
Definition completion (content : text) : pyval :=
  PDict [(lit "choices",
          PList [PDict [(lit "message",
                         PDict [(lit "content", PStr content)])]]);
         (lit "usage", PDict [(lit "total_tokens", PInt 42)])].

(** The console sink as [STTOutputManager] creates it, and what decides
    whether a call of its [send] prints: the message type read from the
    metadata, and the two switches. *)
Definition default_console : ConsoleOutputHandler.t :=
  {| ConsoleOutputHandler.show_partial := false;
     ConsoleOutputHandler.show_final := true |}.

Definition msg_type (metadata : option pydict) : pyval :=
  match metadata with
  | Some ((_ :: _) as d) => dict_get d (lit "type") (PStr (lit "unknown"))
  | _ => PStr (lit "unknown")
  end.

Definition displays (self : ConsoleOutputHandler.t) (metadata : option pydict)
  : bool :=
  ConsoleOutputHandler.is_str (msg_type metadata) (lit "partial")
    && ConsoleOutputHandler.show_partial self
  || ConsoleOutputHandler.is_str (msg_type metadata) (lit "final")
    && ConsoleOutputHandler.show_final self
  || ConsoleOutputHandler.is_str (msg_type metadata) (lit "complete").

(** The object a handler hands to the dispatcher for an outcome. *)
Definition result_of (o : res pyval) : pyval :=
  match o with
  | Ok v => v
  | Raise _ => PBool false
  end.

(** How many times ["listening_stopped"] was announced. *)
Definition stopped_count (out : list VoskSTTEngine.callback) : nat :=
  List.length
    (filter (fun c => match c with
                      | VoskSTTEngine.OnStatus name =>
                          text_eqb name (lit "listening_stopped")
                      | _ => false
                      end) out).

(** An engine with every callback set and the watchdog configured as in
    [STWconfig.py], and a stop during which nothing goes wrong. *)
Definition configured : VoskSTTEngine.t :=
  VoskSTTEngine.set_auto_stop_duration (Some 8%Z)
    (VoskSTTEngine.set_callbacks true true true true true
       VoskSTTEngine.initialized).

Definition calm_stop : VoskSTTEngine.stop_env :=
  {| VoskSTTEngine.stream_fails := false;
     VoskSTTEngine.thread_ends_in_time := true;
     VoskSTTEngine.final_result := json "{'text' : 'open the window'}" |}.

(** *** Further notions used by the additional properties *)

(** Text that the ASCII codec can encode. *)
Definition is_ascii_text (s : text) : bool := forallb (fun c => (c <? 128)%N) s.

(** The events of [n] requests that are all retried: a request, then a
    sleep of [2 ** k] seconds after the [k]-th request, except after the
    last. *)
Definition backoff_trace (system : pyval) (user : text) (n : nat) : list event :=
  match n with
  | O => []
  | S m =>
      flat_map (fun k => [HttpPost system user; Sleep (2 ^ Z.of_nat k)]) (seq 0 m)
      ++ [HttpPost system user]
  end.

Definition is_post (e : event) : bool :=
  match e with HttpPost _ _ => true | _ => false end.

Definition is_sleep (e : event) : bool :=
  match e with Sleep _ => true | _ => false end.

Definition is_forward (e : event) : bool :=
  match e with SendCommand _ => true | _ => false end.

Definition count (p : event -> bool) (evs : list event) : nat :=
  List.length (filter p evs).

(** The reference configuration with no attempt allowed. *)
Definition no_retries : OpenAIAPIHandler.t :=
  {| OpenAIAPIHandler.api_key := lit "sk-test";
     OpenAIAPIHandler.model := lit "gpt-4o-mini";
     OpenAIAPIHandler.system_prompt := Some (lit "You control a window.");
     OpenAIAPIHandler.timeout := 30;
     OpenAIAPIHandler.retry_count := 0;
     OpenAIAPIHandler.esp32_handler := None |}.

(** A port whose first flush fails. *)
Definition flaky_flush : world :=
  {| serial_script := [FlushFails]; http_script := []; stdout_script := [];
     clock := lit "12:00:00"; trace := [] |}.

(** What a file holds; a file that does not exist holds nothing. *)
Definition held (d : FileOutputHandler.disk) (path : text) : list N :=
  match FileOutputHandler.content (FileOutputHandler.files d) path with
  | Some c => c
  | None => []
  end.

(** A dictionary whose values are all strings. *)
Definition string_valued (d : pydict) : Prop :=
  Forall (fun kv => exists s, snd kv = PStr s) d.

(** The record of the file sink before the metadata is merged in. *)
Definition base_record (timestamp text : text) : pydict :=
  [(lit "timestamp", PStr timestamp); (lit "text", PStr text)].

Section Records.
Context {R : Runtime}.

(** The members of an object as [json.dumps] writes them, between the
    braces. *)
Fixpoint members_text (d : pydict) : text :=
  match d with
  | [] => []
  | [(k, x)] =>
      FileOutputHandler.quote k ++ [58; 32]%N ++ FileOutputHandler.dumps x
  | (k, x) :: r =>
      FileOutputHandler.quote k ++ [58; 32]%N ++ FileOutputHandler.dumps x
      ++ [44; 32]%N ++ members_text r
  end.

(** What follows a member: nothing after the last, else a comma, a
    blank and the other members. *)
Definition more_members (r : pydict) : text :=
  match r with
  | [] => []
  | _ :: _ => [44; 32]%N ++ members_text r
  end.

End Records.

(** The flags of the engine agree with each other. *)
Definition consistent (self : VoskSTTEngine.t) : Prop :=
  VoskSTTEngine.is_initialized self = true
  /\ (VoskSTTEngine.is_listening self = true ->
      VoskSTTEngine.is_running self = true
      /\ VoskSTTEngine.shutdown_requested self = false)
  /\ (VoskSTTEngine.shutdown_requested self = true ->
      VoskSTTEngine.stop_event self = true).


(** A transcript as the callbacks get it: not empty, no blanks around. *)
Definition trimmed (s : text) : Prop := s <> [] /\ strip s = s.

Definition well_formed (c : VoskSTTEngine.callback) : Prop :=
  match c with
  | VoskSTTEngine.OnPartial s
  | VoskSTTEngine.OnFinal s
  | VoskSTTEngine.OnComplete s => trimmed s
  | _ => True
  end.

End Spec.

(* ===================================================================== *)
(** ** Text: facts about [strip] and the brace search *)
(* ===================================================================== *)

Unset Implicit Arguments.

Lemma text_eqb_eq (a b : text) : text_eqb a b = true <-> a = b.
Proof.
  unfold text_eqb. destruct (text_eq_dec a b); split; congruence.
Qed.

Lemma text_eqb_neq (a b : text) : text_eqb a b = false <-> a <> b.
Proof.
  unfold text_eqb. destruct (text_eq_dec a b); split; congruence.
Qed.

Lemma lstrip_nonspace (c : char) (s : text) :
  isspace c = false -> lstrip (c :: s) = c :: s.
Proof. intros H. simpl. now rewrite H. Qed.


Lemma from_first_open_head (s t : text) :
  from_first_open s = Some t -> exists r, t = open_brace :: r.
Proof.
  induction s as [|c r IH]; simpl; [discriminate|].
  destruct (c =? open_brace)%N eqn:E.
  - intros [= <-]. apply N.eqb_eq in E. subst c. now exists r.
  - exact IH.
Qed.








(* ===================================================================== *)
(** ** [json.loads] always has fuel enough *)
(* ===================================================================== *)

Section JsonTotal.
Import Json.

Lemma skip_ws_length s : (List.length (skip_ws s) <= List.length s)%nat.
Proof.
  induction s as [|c r IH]; simpl; [lia|].
  destruct (is_json_ws c); simpl; lia.
Qed.

Ltac by_shorter IH :=
  match goal with
  | |- scanstring ?s' _ <> Starved =>
      apply (IH (List.length s')); [simpl in *; lia|reflexivity]
  | H : scanstring ?s' _ = Found _ _ |- _ =>
      apply (IH (List.length s')) in H; [simpl in *; lia|simpl in *; lia|reflexivity]
  end.

Lemma scanstring_never_starved_upto n :
  forall s, List.length s = n -> forall acc, scanstring s acc <> Starved.
Proof.
  induction n as [n IH] using lt_wf_ind. intros s En acc. subst n.
  destruct s as [|c r]; simpl; [discriminate|].
  destruct (c =? 34)%N; [discriminate|].
  destruct (c =? 92)%N.
  - destruct r as [|e r1]; [discriminate|].
    destruct (e =? 117)%N.
    + destruct r1 as [|h1 [|h2 [|h3 [|h4 r2]]]]; try discriminate.
      destruct (hex4 h1 h2 h3 h4) as [u1|]; [|discriminate].
      destruct (is_high_surrogate u1); [|by_shorter IH].
      destruct r2 as [|b [|u [|k1 [|k2 [|k3 [|k4 r3]]]]]]; try by_shorter IH.
      destruct ((b =? 92) && (u =? 117))%N; [|by_shorter IH].
      destruct (hex4 k1 k2 k3 k4) as [u2|]; [|discriminate].
      destruct (is_low_surrogate u2); by_shorter IH.
    + destruct (unescape e); [|discriminate]. by_shorter IH.
  - destruct (c <=? 31)%N; [discriminate|]. by_shorter IH.
Qed.

Lemma scanstring_never_starved s acc : scanstring s acc <> Starved.
Proof. now apply (scanstring_never_starved_upto (List.length s)). Qed.

Lemma scanstring_length_upto n :
  forall s, List.length s = n ->
  forall acc t r, scanstring s acc = Found t r ->
                  (List.length r < List.length s)%nat.
Proof.
  induction n as [n IH] using lt_wf_ind. intros s En acc t r. subst n.
  destruct s as [|c r0]; simpl; [discriminate|].
  destruct (c =? 34)%N; [intros [= _ <-]; lia|].
  destruct (c =? 92)%N.
  - destruct r0 as [|e r1]; [discriminate|].
    destruct (e =? 117)%N.
    + destruct r1 as [|h1 [|h2 [|h3 [|h4 r2]]]]; try discriminate.
      destruct (hex4 h1 h2 h3 h4) as [u1|]; [|discriminate].
      destruct (is_high_surrogate u1); [|intros H; by_shorter IH].
      destruct r2 as [|b [|u [|k1 [|k2 [|k3 [|k4 r3]]]]]];
        try (intros H; by_shorter IH).
      destruct ((b =? 92) && (u =? 117))%N; [|intros H; by_shorter IH].
      destruct (hex4 k1 k2 k3 k4) as [u2|]; [|discriminate].
      destruct (is_low_surrogate u2); intros H; by_shorter IH.
    + destruct (unescape e); [|discriminate]. intros H; by_shorter IH.
  - destruct (c <=? 31)%N; [discriminate|]. intros H; by_shorter IH.
Qed.

Lemma scanstring_length s acc t r :
  scanstring s acc = Found t r -> (List.length r < List.length s)%nat.
Proof. now apply (scanstring_length_upto (List.length s)). Qed.

Lemma take_digits_length s : forall acc n a m r,
  take_digits s acc n = (a, m, r) -> (List.length r <= List.length s)%nat.
Proof.
  induction s as [|c r0 IH]; intros acc n a m r; simpl.
  - intros [= _ _ <-]. simpl. lia.
  - destruct (is_digit c).
    + intros H. apply IH in H. lia.
    + intros [= _ _ <-]. simpl. lia.
Qed.

Lemma strip_prefix_length p : forall s r,
  strip_prefix p s = Some r -> (List.length r <= List.length s)%nat.
Proof.
  induction p as [|a p IH]; intros s r; simpl.
  - intros [= <-]. lia.
  - destruct s as [|b s]; [discriminate|].
    destruct (a =? b)%N; [|discriminate].
    intros H. apply IH in H. simpl. lia.
Qed.

Lemma number_sign_length s neg r :
  number_sign s = (neg, r) -> (List.length r <= List.length s)%nat.
Proof.
  unfold number_sign. destruct s as [|c s']; [intros [= _ <-]; lia|].
  destruct (c =? 45)%N; intros [= _ <-]; simpl; lia.
Qed.

Lemma number_int_length s ip r :
  number_int s = Some (ip, r) -> (List.length r <= List.length s)%nat.
Proof.
  unfold number_int. destruct s as [|c s']; [discriminate|].
  destruct (negb (is_digit c)); [discriminate|].
  destruct (c =? 48)%N; [intros [= _ <-]; simpl; lia|].
  destruct (take_digits (c :: s') 0 0) as [[a m] rest] eqn:E.
  intros [= _ <-]. now apply take_digits_length in E.
Qed.

Lemma number_frac_length ip s m n r :
  number_frac ip s = Some (m, n, r) -> (List.length r <= List.length s)%nat.
Proof.
  unfold number_frac. destruct s as [|dot [|d r1]]; try discriminate.
  destruct ((dot =? 46)%N && is_digit d); [|discriminate].
  intros [= H]. cbn [take_digits] in H.
  destruct (is_digit d).
  - apply take_digits_length in H. simpl. lia.
  - injection H as _ _ <-. simpl. lia.
Qed.

Lemma number_exp_length s x r :
  number_exp s = Some (x, r) -> (List.length r <= List.length s)%nat.
Proof.
  unfold number_exp. destruct s as [|e r2]; [discriminate|].
  destruct ((e =? 101) || (e =? 69))%N; [|discriminate].
  destruct (match r2 with
            | [] => (false, r2)
            | sg :: r3 =>
                if (sg =? 45)%N then (true, r3)
                else if (sg =? 43)%N then (false, r3) else (false, r2)
            end) as [eneg r3] eqn:E3.
  assert (Hr3 : (List.length r3 <= List.length r2)%nat).
  { destruct r2 as [|sg r2']; [injection E3 as _ <-; lia|].
    destruct (sg =? 45)%N; [injection E3 as _ <-; simpl; lia|].
    destruct (sg =? 43)%N; injection E3 as _ <-; simpl; lia. }
  destruct r3 as [|d r4]; [discriminate|].
  destruct (is_digit d); [|discriminate].
  destruct (take_digits (d :: r4) 0 0) as [[a m] rest] eqn:E.
  intros [= _ <-]. apply take_digits_length in E. simpl in *. lia.
Qed.

Lemma match_number_length s v r :
  match_number s = Some (v, r) -> (List.length r <= List.length s)%nat.
Proof.
  unfold match_number.
  destruct (number_sign s) as [neg s0] eqn:E0.
  apply number_sign_length in E0.
  destruct (number_int s0) as [[ip s1]|] eqn:E1; [|discriminate].
  apply number_int_length in E1.
  assert (E2 : exists mant nfrac has_frac s2,
            match number_frac ip s1 with
            | Some (m, n, rest) => (m, n, true, rest)
            | None => (ip, 0%nat, false, s1)
            end = (mant, nfrac, has_frac, s2)
            /\ (List.length s2 <= List.length s1)%nat).
  { destruct (number_frac ip s1) as [[[m n] rest]|] eqn:E.
    - apply number_frac_length in E. now exists m, n, true, rest.
    - now exists ip, 0%nat, false, s1. }
  destruct E2 as (mant & nfrac & has_frac & s2 & -> & H2).
  assert (E3 : exists ex has_exp s3,
            match number_exp s2 with
            | Some (x, rest) => (x, true, rest)
            | None => (0%Z, false, s2)
            end = (ex, has_exp, s3)
            /\ (List.length s3 <= List.length s2)%nat).
  { destruct (number_exp s2) as [[x rest]|] eqn:E.
    - apply number_exp_length in E. now exists x, true, rest.
    - now exists 0%Z, false, s2. }
  destruct E3 as (ex & has_exp & s3 & -> & H3).
  destruct (has_frac || has_exp); intros [= _ <-]; lia.
Qed.

Lemma scan_atom_never_starved s : scan_atom s <> Starved.
Proof.
  unfold scan_atom.
  repeat match goal with
         | |- context [match strip_prefix ?p ?x with _ => _ end] =>
             destruct (strip_prefix p x)
         | |- context [match match_number ?x with _ => _ end] =>
             destruct (match_number x) as [[? ?]|]
         end; discriminate.
Qed.

Lemma scan_atom_length s v r :
  scan_atom s = Found v r -> (List.length r <= List.length s)%nat.
Proof.
  unfold scan_atom.
  repeat match goal with
         | |- context [match strip_prefix ?p ?x with _ => _ end] =>
             let E := fresh "E" in
             destruct (strip_prefix p x) eqn:E;
             [apply strip_prefix_length in E; intros [= _ <-]; exact E|]
         | |- context [match match_number ?x with _ => _ end] =>
             let E := fresh "E" in
             destruct (match_number x) as [[? ?]|] eqn:E;
             [apply match_number_length in E; intros [= _ <-]; exact E|]
         end.
  discriminate.
Qed.

(** What the three scanners leave is never longer than what they got. *)
Lemma scan_length fuel :
  (forall s v r, scan_once fuel s = Found v r ->
                 (List.length r <= List.length s)%nat)
  /\ (forall s acc v r, parse_members fuel s acc = Found v r ->
                        (List.length r <= List.length s)%nat)
  /\ (forall s acc v r, parse_elems fuel s acc = Found v r ->
                        (List.length r <= List.length s)%nat).
Proof.
  induction fuel as [|fuel (IH1 & IH2 & IH3)];
    [repeat split; intros; discriminate|].
  repeat split.
  - intros s v r. cbn [scan_once].
    destruct s as [|c s']; [discriminate|].
    destruct (c =? 34)%N.
    { destruct (scanstring s' []) as [t rest| |] eqn:E; try discriminate.
      intros [= _ <-]. apply scanstring_length in E. simpl. lia. }
    destruct (c =? 123)%N.
    { pose proof (skip_ws_length s') as Hw.
      destruct (skip_ws s') as [|c1 r1]; [discriminate|].
      destruct (c1 =? 125)%N; [intros [= _ <-]; simpl in *; lia|].
      destruct (c1 =? 34)%N; [|discriminate].
      intros H. apply IH2 in H. simpl in *. lia. }
    destruct (c =? 91)%N.
    { pose proof (skip_ws_length s') as Hw.
      destruct (skip_ws s') as [|c1 r1]; [discriminate|].
      destruct (c1 =? 93)%N; [intros [= _ <-]; simpl in *; lia|].
      intros H. apply IH3 in H. simpl in *. lia. }
    apply scan_atom_length.
  - intros s acc v r. cbn [parse_members].
    destruct (scanstring s []) as [key s1| |] eqn:E; try discriminate.
    apply scanstring_length in E.
    pose proof (skip_ws_length s1) as Hw1.
    destruct (skip_ws s1) as [|colon s2]; [discriminate|].
    destruct (negb (colon =? 58)%N); [discriminate|].
    pose proof (skip_ws_length s2) as Hw2.
    destruct (scan_once fuel (skip_ws s2)) as [v1 s3| |] eqn:E1;
      try discriminate.
    apply IH1 in E1.
    pose proof (skip_ws_length s3) as Hw3.
    destruct (skip_ws s3) as [|c s4]; [discriminate|].
    destruct (c =? 125)%N; [intros [= _ <-]; simpl in *; lia|].
    destruct (c =? 44)%N; [|discriminate].
    pose proof (skip_ws_length s4) as Hw4.
    destruct (skip_ws s4) as [|q s5]; [discriminate|].
    destruct (q =? 34)%N; [|discriminate].
    intros H. apply IH2 in H. simpl in *. lia.
  - intros s acc v r. cbn [parse_elems].
    destruct (scan_once fuel s) as [v1 s1| |] eqn:E1; try discriminate.
    apply IH1 in E1.
    pose proof (skip_ws_length s1) as Hw1.
    destruct (skip_ws s1) as [|c s2]; [discriminate|].
    destruct (c =? 93)%N; [intros [= _ <-]; simpl in *; lia|].
    destruct (c =? 44)%N; [|discriminate].
    pose proof (skip_ws_length s2) as Hw2.
    intros H. apply IH3 in H. simpl in *. lia.
Qed.

(** With twice the length of the input as fuel (and one or two more), the
    scanners never run out of it. *)
Lemma scan_never_starved fuel :
  (forall s, (2 * List.length s + 1 <= fuel)%nat ->
             scan_once fuel s <> Starved)
  /\ (forall s acc, (2 * List.length s + 2 <= fuel)%nat ->
                    parse_members fuel s acc <> Starved)
  /\ (forall s acc, (2 * List.length s + 2 <= fuel)%nat ->
                    parse_elems fuel s acc <> Starved).
Proof.
  induction fuel as [|fuel (IH1 & IH2 & IH3)];
    [repeat split; intros; lia|].
  destruct (scan_length fuel) as (L1 & L2 & L3).
  repeat split.
  - intros s Hf. cbn [scan_once].
    destruct s as [|c s']; [discriminate|]. simpl in Hf.
    destruct (c =? 34)%N.
    { pose proof (scanstring_never_starved s' []) as Hn.
      destruct (scanstring s' []); try discriminate. contradiction. }
    destruct (c =? 123)%N.
    { pose proof (skip_ws_length s') as Hw.
      destruct (skip_ws s') as [|c1 r1]; [discriminate|].
      destruct (c1 =? 125)%N; [discriminate|].
      destruct (c1 =? 34)%N; [|discriminate].
      apply IH2. simpl in *. lia. }
    destruct (c =? 91)%N.
    { pose proof (skip_ws_length s') as Hw.
      destruct (skip_ws s') as [|c1 r1]; [discriminate|].
      destruct (c1 =? 93)%N; [discriminate|].
      apply IH3. simpl in *. lia. }
    apply scan_atom_never_starved.
  - intros s acc Hf. cbn [parse_members].
    pose proof (scanstring_never_starved s []) as Hn.
    destruct (scanstring s []) as [key s1| |] eqn:E;
      [|discriminate|contradiction].
    apply scanstring_length in E.
    pose proof (skip_ws_length s1) as Hw1.
    destruct (skip_ws s1) as [|colon s2]; [discriminate|].
    destruct (negb (colon =? 58)%N); [discriminate|].
    pose proof (skip_ws_length s2) as Hw2.
    assert (Hs : scan_once fuel (skip_ws s2) <> Starved)
      by (apply IH1; simpl in *; lia).
    destruct (scan_once fuel (skip_ws s2)) as [v1 s3| |] eqn:E1;
      [|discriminate|contradiction].
    apply L1 in E1.
    pose proof (skip_ws_length s3) as Hw3.
    destruct (skip_ws s3) as [|c s4]; [discriminate|].
    destruct (c =? 125)%N; [discriminate|].
    destruct (c =? 44)%N; [|discriminate].
    pose proof (skip_ws_length s4) as Hw4.
    destruct (skip_ws s4) as [|q s5]; [discriminate|].
    destruct (q =? 34)%N; [|discriminate].
    apply IH2. simpl in *. lia.
  - intros s acc Hf. cbn [parse_elems].
    assert (Hs : scan_once fuel s <> Starved) by (apply IH1; lia).
    destruct (scan_once fuel s) as [v1 s1| |] eqn:E1;
      [|discriminate|contradiction].
    apply L1 in E1.
    pose proof (skip_ws_length s1) as Hw1.
    destruct (skip_ws s1) as [|c s2]; [discriminate|].
    destruct (c =? 93)%N; [discriminate|].
    destruct (c =? 44)%N; [|discriminate].
    pose proof (skip_ws_length s2) as Hw2.
    apply IH3. simpl in *. lia.
Qed.

(** [loads] gives its fuel enough: a [JSONDecodeError] of the model is
    always a decode error, never a lack of fuel. *)
Lemma loads_never_starved s :
  scan_once (2 * List.length s + 1) (skip_ws s) <> Starved.
Proof.
  apply (proj1 (scan_never_starved (2 * List.length s + 1))).
  pose proof (skip_ws_length s). lia.
Qed.

End JsonTotal.

(* ===================================================================== *)
(** ** What [send_command] does to the world *)
(* ===================================================================== *)

Section SerialFacts.
Import SimpleESP32Handler.

Lemma write_attempt_trace command enc nl w :
  exists ws,
    trace (snd (write_attempt command enc nl w))
    = trace w ++ map SerialWrite ws.
Proof.
  unfold write_attempt, mbind, next_serial.
  destruct (serial_script w) as [|f r]; [|destruct f]; simpl;
    try (exists []; now rewrite app_nil_r);
    destruct (encode enc (command ++ nl)) as [b|]; simpl;
    try (exists []; now rewrite app_nil_r);
    exists [b]; reflexivity.
Qed.

Lemma try_patterns_trace command attempts w :
  exists ws,
    trace (snd (try_patterns command attempts w))
    = trace w ++ map SerialWrite ws.
Proof.
  revert w. induction attempts as [|[enc nl] rest IH]; intros w; simpl.
  - exists []. now rewrite app_nil_r.
  - unfold mbind.
    destruct (write_attempt_trace command enc nl w) as [ws1 H1].
    destruct (write_attempt command enc nl w) as [ok w1]. simpl in H1.
    destruct ok.
    + exists ws1. exact H1.
    + destruct (IH w1) as [ws2 H2]. exists (ws1 ++ ws2).
      rewrite H2, H1, map_app. now rewrite app_assoc.
Qed.

(** A call of [send_command] adds its own entry to the trace and then only
    serial writes. *)
Lemma send_command_trace self command encs w :
  exists ws,
    trace (snd (send_command self command encs w))
    = trace w ++ SendCommand command :: map SerialWrite ws.
Proof.
  unfold send_command, mbind, emit.
  destruct (is_connected self); simpl.
  - match goal with
    | |- context [try_patterns ?c ?a ?w0] =>
        destruct (try_patterns_trace c a w0) as [ws H]
    end.
    exists ws. rewrite H. simpl. now rewrite <- app_assoc.
  - exists []. reflexivity.
Qed.

End SerialFacts.

(** Stripping a text neither creates nor removes a brace span. *)
Lemma lstrip_suffix (s : text) : exists p, s = p ++ lstrip s.
Proof.
  induction s as [|c r [p IH]]; simpl.
  - now exists [].
  - destruct (isspace c).
    + exists (c :: p). simpl. now rewrite <- IH.
    + now exists [].
Qed.

Lemma rstrip_prefix (s : text) : exists t, s = rstrip s ++ t.
Proof.
  unfold rstrip. destruct (lstrip_suffix (rev s)) as [p E].
  exists (rev p). rewrite <- rev_app_distr, <- E. now rewrite rev_involutive.
Qed.

Lemma search_braces_lstrip (s : text) :
  search_braces (lstrip s) = search_braces s.
Proof.
  induction s as [|c r IH]; simpl; [reflexivity|].
  destruct (isspace c) eqn:E; [|reflexivity].
  rewrite IH. unfold search_braces. simpl.
  destruct (c =? open_brace)%N eqn:E2; [|reflexivity].
  apply N.eqb_eq in E2. subst c. discriminate E.
Qed.

Lemma from_first_open_app (a t u : text) :
  from_first_open a = Some u -> from_first_open (a ++ t) = Some (u ++ t).
Proof.
  induction a as [|c r IH]; simpl; [discriminate|].
  destruct (c =? open_brace)%N.
  - now intros [= <-].
  - exact IH.
Qed.

Lemma upto_last_close_app (r t p : text) :
  upto_last_close r = Some p -> upto_last_close (r ++ t) <> None.
Proof.
  revert p. induction r as [|c r IH]; simpl; [discriminate|].
  intros p. destruct (upto_last_close r) as [p'|].
  - intros _. specialize (IH p' eq_refl).
    destruct (upto_last_close (r ++ t)); [discriminate|contradiction].
  - destruct (c =? close_brace)%N; [|discriminate].
    intros _. destruct (upto_last_close (r ++ t)); discriminate.
Qed.

Lemma search_braces_app_none (a t : text) :
  search_braces (a ++ t) = None -> search_braces a = None.
Proof.
  unfold search_braces.
  destruct (from_first_open a) as [u|] eqn:E; [|reflexivity].
  rewrite (from_first_open_app _ t _ E).
  destruct (from_first_open_head _ _ E) as [r ->]. simpl.
  destruct (upto_last_close r) as [p|] eqn:E2; [|reflexivity].
  pose proof (upto_last_close_app _ t _ E2) as H.
  destruct (upto_last_close (r ++ t)); [discriminate|contradiction].
Qed.

Lemma search_braces_strip_none (s : text) :
  search_braces s = None -> search_braces (strip s) = None.
Proof.
  intros H. unfold strip.
  destruct (rstrip_prefix (lstrip s)) as [t E].
  apply search_braces_app_none with (t := t).
  now rewrite <- E, search_braces_lstrip.
Qed.

(* ===================================================================== *)
(** ** [SimpleESP32Handler]: the sentinel filter and the fallbacks *)
(* ===================================================================== *)

Section ESP32.
Import SimpleESP32Handler.
Context {R : Runtime}.

(** What [send] does once the command is settled: the final guard. *)
Lemma send_guard self text md w :
  send self text md w
  = match command_to_send self (strip (py_str text)) with
    | Some (c0 :: c) =>
        if text_eqb (c0 :: c) move0 then (false, w)
        else send_command self (c0 :: c) default_encoding_list w
    | _ => (false, w)
    end.
Proof.
  unfold send. destruct (command_to_send self (strip (py_str text))) as [[|c0 c]|];
    simpl; try reflexivity.
  destruct (text_eqb (c0 :: c) move0); reflexivity.
Qed.

(** C1.  For every input given to [send], whatever the handler, the
    metadata and the world: the events the call adds to the trace are
    either none, or one call of [send_command] with a command other than
    the sentinel ["move0"], followed by serial writes only.  In particular
    [send_command] is never entered with ["move0"], and no write happens
    that is not preceded by such a checked call. *)
Theorem sentinel_never_passed_to_send_command
    (self : t) (text : pyval) (metadata : option pydict) (w : world) :
  exists evs,
    trace (snd (send self text metadata w)) = trace w ++ evs
    /\ ~ In (SendCommand move0) evs
    /\ (evs = []
        \/ exists c ws, c <> move0 /\ evs = SendCommand c :: map SerialWrite ws).
Proof.
  rewrite send_guard.
  destruct (command_to_send self (strip (py_str text))) as [[|c0 c]|].
  1, 3: exists []; simpl; rewrite app_nil_r; auto.
  destruct (text_eqb (c0 :: c) move0) eqn:E.
  - exists []. simpl. rewrite app_nil_r. auto.
  - apply text_eqb_neq in E.
    destruct (send_command_trace self (c0 :: c) default_encoding_list w)
      as [ws H].
    exists (SendCommand (c0 :: c) :: map SerialWrite ws).
    split; [exact H|]. split.
    + intros [Hin|Hin].
      * congruence.
      * apply in_map_iff in Hin. destruct Hin as (x & Hx & _). discriminate.
    + right. now exists (c0 :: c), ws.
Qed.



(** C7 (amended).  For every text [T] without a brace span: [send] settles
    on the trimmed text; it passes it to [send_command] when it is neither
    empty nor the sentinel, and otherwise sends nothing and returns
    [False]. *)
Theorem no_json_falls_back_to_trimmed_text
    (self : t) (T : PyText.text) (metadata : option pydict) (w : world) :
  search_braces T = None ->
  command_to_send self (strip T) = Some (strip T)
  /\ (strip T <> [] -> strip T <> move0 ->
      send self (PStr T) metadata w
      = send_command self (strip T) default_encoding_list w)
  /\ (strip T = [] \/ strip T = move0 ->
      send self (PStr T) metadata w = (false, w)).
Proof.
  intros H. apply search_braces_strip_none in H.
  assert (Hc : command_to_send self (strip T) = Some (strip T)).
  { unfold command_to_send. now rewrite H. }
  split; [exact Hc|].
  split.
  - intros Hne Hm. rewrite send_guard. simpl py_str. rewrite Hc.
    destruct (strip T) as [|c0 c]; [contradiction|].
    apply text_eqb_neq in Hm. now rewrite Hm.
  - intros Hm. rewrite send_guard. simpl py_str. rewrite Hc.
    destruct (strip T) as [|c0 c]; [reflexivity|].
    destruct Hm as [Hm|Hm]; [discriminate|].
    apply text_eqb_eq in Hm. now rewrite Hm.
Qed.

End ESP32.

Section ESP32Json.
Import SimpleESP32Handler.
Context {R : Runtime}.




End ESP32Json.

(* ===================================================================== *)
(** ** The translator on concrete texts *)
(* ===================================================================== *)

Section Examples.
Import SimpleESP32Handler Spec.
Existing Instance plain_runtime.

Example translate_close20 :
  parse_json_to_command connected (json "{'action':'Close','degree':20.7}")
  = lit "close20".
Proof. vm_compute. reflexivity. Qed.

Example translate_embedded :
  command_to_send connected
    (strip (json "Sure: {'action':'close','degree':10} ok"))
  = Some (lit "close10").
Proof. vm_compute. reflexivity. Qed.

Example translate_out_of_range :
  parse_json_to_command connected (json "{'action':'open','degree':-250}")
  = lit "open-250".
Proof. vm_compute. reflexivity. Qed.

(** The sentinel can still reach the wire: a command that differs from it
    only by blanks passes the guard of [send], and [send_command] strips
    it. *)
Example padded_sentinel_is_written :
  trace (snd (send connected (PStr (json "{'action':' move','degree':0}"))
                None quiet))
  = [SendCommand (lit " move0"); SerialWrite (lit "move0" ++ [10%N])].
Proof. vm_compute. reflexivity. Qed.



(** Counterexample to C7 as stated: a blank text has no brace span and its
    trimmed form, the empty string, is not the sentinel; yet nothing is
    offered to [send_command]. *)
Lemma blank_text_is_dropped :
  let T := lit "   " in
  search_braces T = None
  /\ strip T = []
  /\ strip T <> move0
  /\ send connected (PStr T) None quiet = (false, quiet).
Proof. vm_compute. repeat split; try reflexivity. discriminate. Qed.

Lemma no_json_falls_back_witness :
  command_to_send connected (strip (lit " I am not sure "))
  = Some (strip (lit " I am not sure "))
  /\ (strip (lit " I am not sure ") <> [] ->
      strip (lit " I am not sure ") <> move0 ->
      send connected (PStr (lit " I am not sure ")) None quiet
      = send_command connected (strip (lit " I am not sure "))
          default_encoding_list quiet)
  /\ (strip (lit " I am not sure ") = []
      \/ strip (lit " I am not sure ") = move0 ->
      send connected (PStr (lit " I am not sure ")) None quiet = (false, quiet)).
Proof.
  refine (@no_json_falls_back_to_trimmed_text plain_runtime connected
            (lit " I am not sure ") None quiet _).
  vm_compute. reflexivity.
Defined.

End Examples.

(* ===================================================================== *)
(** ** [OpenAIAPIHandler]: the retry loop *)
(* ===================================================================== *)

Section OpenAI.
Import OpenAIAPIHandler Spec.
Context {R : Runtime}.

Lemma attempts_unfold self system user attempt rest w :
  attempts self system user (attempt :: rest) w
  = let w0 := snd (emit (HttpPost system user) w) in
    let reply := fst (next_http w0) in
    let w1 := snd (next_http w0) in
    let backoff :=
      attempts self system user rest
        (if (attempt <? retry_count self - 1)%Z
         then snd (emit (Sleep (2 ^ attempt)) w1) else w1) in
    match reply with
    | Response status_code body =>
        if (status_code =? 200)%Z then
          match body with
          | Some result =>
              match read_result result with
              | Ok ai_response =>
                  match esp32_handler self with
                  | Some esp32 =>
                      (Ok true,
                       snd (SimpleESP32Handler.send esp32 ai_response None w1))
                  | None => (Ok true, w1)
                  end
              | Raise e => (Raise e, w1)
              end
          | None => backoff
          end
        else if (status_code =? 401)%Z then (Ok false, w1)
        else backoff
    | Timeout | RequestError => backoff
    end.
Proof.
  cbn [attempts]. unfold mbind. cbn [emit snd].
  destruct (next_http _) as [reply w1]. cbn [fst snd].
  destruct reply as [| |status body].
  1, 2: destruct (attempt <? retry_count self - 1)%Z; reflexivity.
  destruct (status =? 200)%Z.
  - destruct body as [result|].
    + destruct (read_result result); [|reflexivity].
      destruct (esp32_handler self); [|reflexivity].
      destruct (SimpleESP32Handler.send _ _ _ _). reflexivity.
    + destruct (attempt <? retry_count self - 1)%Z; reflexivity.
  - destruct (status =? 401)%Z; [reflexivity|].
    destruct (attempt <? retry_count self - 1)%Z; reflexivity.
Qed.

Lemma next_http_reply w : fst (next_http w) = reply_at w 0.
Proof. unfold next_http, reply_at. destruct (http_script w); reflexivity. Qed.

Lemma next_http_script w : http_script (snd (next_http w)) = tl (http_script w).
Proof.
  unfold next_http. destruct (http_script w) eqn:E; cbn; [now rewrite E|reflexivity].
Qed.

Lemma next_http_trace w : trace (snd (next_http w)) = trace w.
Proof. unfold next_http. destruct (http_script w); reflexivity. Qed.





Lemma retried_not_usable r : retried r = true -> usable r = false.
Proof.
  destruct r as [| |status body]; try reflexivity. cbn.
  destruct body; [|reflexivity].
  now destruct (status =? 200)%Z.
Qed.





(** C4.  With [retry_count = 3] and a payload that can be built: three
    429 replies in a row make exactly three POSTs, with a sleep of 1 s
    after the first and of 2 s after the second ([2 ** attempt]) and none
    after the third, and [send] returns [False]; a 401 reply to the first
    POST makes [send] return [False] at once, after that single POST and
    without any sleep. *)
Theorem rate_limit_retries_and_unauthorized_aborts
    (self : t) (text : text) (metadata : option pydict) (w : world)
    (system : pyval) (user : PyText.text) :
  retry_count self = 3%Z ->
  payload self text metadata = Ok (system, user) ->
  (forall b1 b2 b3 rest,
     http_script w = Response 429 b1 :: Response 429 b2 :: Response 429 b3 :: rest ->
     exists w',
       send self text metadata w = (Ok false, w')
       /\ trace w' = trace w ++ [HttpPost system user; Sleep 1;
                                 HttpPost system user; Sleep 2;
                                 HttpPost system user]
       /\ http_script w' = rest)
  /\ (forall b rest,
       http_script w = Response 401 b :: rest ->
       exists w',
         send self text metadata w = (Ok false, w')
         /\ trace w' = trace w ++ [HttpPost system user]
         /\ http_script w' = rest).
Proof.
  intros Hn Hp. unfold send. rewrite Hp, Hn.
  change (range 3) with [0; 1; 2]%Z.
  split.
  - intros b1 b2 b3 rest Hs.
    do 3 (rewrite attempts_unfold; cbn zeta; rewrite Hn;
          unfold next_http; cbn [emit snd fst http_script]; try rewrite Hs;
          cbn [fst snd Z.eqb Pos.eqb Z.ltb Z.compare Pos.compare
               Pos.compare_cont Z.sub Z.add Z.opp Z.pos_sub Z.succ_double
               Z.pred_double Z.double Pos.pred_double emit http_script]).
    cbn [attempts ret]. eexists. split; [reflexivity|].
    cbn [trace http_script]. split; [|reflexivity].
    repeat rewrite <- app_assoc. reflexivity.
  - intros b rest Hs.
    rewrite attempts_unfold; cbn zeta.
    unfold next_http; cbn [emit snd fst http_script]. rewrite Hs.
    cbn [fst snd Z.eqb Pos.eqb]. eexists. split; [reflexivity|].
    cbn [trace http_script]. split; reflexivity.
Qed.

End OpenAI.

Section OpenAIExamples.
Import OpenAIAPIHandler Spec.
Existing Instance plain_runtime.

(** The scenario of the specification: the recognised sentence goes to the
    endpoint, the JSON intent comes back and ["open50"] goes to the port. *)
Example open50_end_to_end :
  let w := with_http
             [Response 200 (Some (completion (json "{'action':'open','degree':50}")))]
             quiet in
  fst (send (remote (Some connected)) (lit "open the window to 50 percent") None w)
  = Ok true
  /\ trace (snd (send (remote (Some connected))
                   (lit "open the window to 50 percent") None w))
     = [HttpPost (PStr (lit "You control a window."))
          (lit "音声認識結果: open the window to 50 percent");
        SendCommand (lit "open50");
        SerialWrite (lit "open50" ++ [10%N])].
Proof. vm_compute. split; reflexivity. Qed.

Lemma rate_limit_witness :
  (exists w',
     send (remote None) (lit "open") None
       (with_http [Response 429 None; Response 429 None; Response 429 None] quiet)
     = (Ok false, w')
     /\ trace w' = trace quiet
                   ++ [HttpPost (PStr (lit "You control a window."))
                         (lit "音声認識結果: open"); Sleep 1;
                       HttpPost (PStr (lit "You control a window."))
                         (lit "音声認識結果: open"); Sleep 2;
                       HttpPost (PStr (lit "You control a window."))
                         (lit "音声認識結果: open")]
     /\ http_script w' = [])
  /\ (exists w',
       send (remote None) (lit "open") None
         (with_http [Response 401 None] quiet)
       = (Ok false, w')
       /\ trace w' = trace quiet
                     ++ [HttpPost (PStr (lit "You control a window."))
                           (lit "音声認識結果: open")]
       /\ http_script w' = []).
Proof.
  split.
  - exact (proj1 (@rate_limit_retries_and_unauthorized_aborts plain_runtime
             (remote None) (lit "open") None
             (with_http [Response 429 None; Response 429 None; Response 429 None] quiet)
             _ _ eq_refl eq_refl) None None None [] eq_refl).
  - exact (proj2 (@rate_limit_retries_and_unauthorized_aborts plain_runtime
             (remote None) (lit "open") None
             (with_http [Response 401 None] quiet)
             _ _ eq_refl eq_refl) None [] eq_refl).
Defined.



End OpenAIExamples.

(* ===================================================================== *)
(** ** [MultiOutputHandler] and [ConsoleOutputHandler] *)
(* ===================================================================== *)

Section Dispatch.
Import MultiOutputHandler Spec.

Lemma succeeded_result_of (o : res pyval) :
  truthy (result_of o) = succeeded o.
Proof. now destruct o. Qed.

Lemma collect_delivered text metadata handlers :
  forall w, exists outs w',
    delivered text metadata handlers w outs w'
    /\ collect handlers text metadata w = (map result_of outs, w').
Proof.
  induction handlers as [|h rest IH]; intros w.
  - exists [], w. split; [constructor|reflexivity].
  - cbn [collect]. unfold mbind at 1.
    destruct (h text metadata w) as [o w1] eqn:Eh.
    destruct (IH w1) as (outs & w2 & Hd & Hc).
    exists (o :: outs), w2. split.
    + econstructor; eassumption.
    + unfold mbind. rewrite Hc. now destruct o.
Qed.

Lemma delivered_length text metadata handlers w outs w' :
  delivered text metadata handlers w outs w' ->
  List.length outs = List.length handlers.
Proof. induction 1; simpl; congruence. Qed.

(** C5.  For every list of registered handlers, every event and every
    world: [send] calls each handler once, in order, each on the world its
    predecessors left - whether those returned or raised; and it returns
    [True] exactly when at least one of these calls returned a true
    object. *)
Theorem dispatch_reaches_every_sink_and_reports_any
    (handlers : list handler) (text : text) (metadata : option pydict)
    (w : world) :
  exists outs w',
    delivered text metadata handlers w outs w'
    /\ List.length outs = List.length handlers
    /\ snd (send handlers text metadata w) = w'
    /\ (fst (send handlers text metadata w) = true
        <-> exists o, In o outs /\ succeeded o = true).
Proof.
  destruct (collect_delivered text metadata handlers w) as (outs & w' & Hd & Hc).
  exists outs, w'. split; [exact Hd|].
  split; [exact (delivered_length _ _ _ _ _ _ Hd)|].
  unfold send, mbind. rewrite Hc. cbn [fst snd ret]. split; [reflexivity|].
  unfold any. rewrite existsb_exists. split.
  - intros (v & Hin & Hv). apply in_map_iff in Hin.
    destruct Hin as (o & <- & Hin). exists o. split; [exact Hin|].
    now rewrite <- succeeded_result_of.
  - intros (o & Hin & Ho). exists (result_of o). split.
    + now apply in_map.
    + now rewrite succeeded_result_of.
Qed.

(** A handler that raises does not keep the event from the next one. *)
Example failing_sink_does_not_block :
  let broken : handler := fun _ _ => ret (Raise OSError) in
  let console := ConsoleOutputHandler.send default_console in
  send [broken; console] (lit "open the window")
    (Some [(lit "type", PStr (lit "final"))]) quiet
  = (true,
     {| serial_script := []; http_script := []; stdout_script := [];
        clock := lit "12:00:00";
        trace := [Print ([10%N] ++ lit "[12:00:00] open the window" ++ [10%N])] |}).
Proof. vm_compute. reflexivity. Qed.

End Dispatch.

Section Console.
Import ConsoleOutputHandler Spec.

Lemma console_send_unfold self text metadata w :
  send self text metadata w
  = if displays self metadata then
      if hd false (stdout_script w) then
        (Ok (PBool false), snd (next_stdout w))
      else
        (Ok (PBool true),
         snd (emit (Print
                (if is_str (msg_type metadata) (lit "partial") && show_partial self
                 then [13%N] ++ lit "[" ++ clock w ++ lit "] " ++ ljust60 text
                 else if is_str (msg_type metadata) (lit "final") && show_final self
                 then [10%N] ++ lit "[" ++ clock w ++ lit "] " ++ text ++ [10%N]
                 else [10%N] ++ lit "[" ++ clock w ++ lit "] 最終: " ++ text ++ [10%N]))
                (snd (next_stdout w))))
    else (Ok (PBool true), w).
Proof.
  destruct w as [ss hs os ck tr].
  unfold send, displays. fold (msg_type metadata).
  destruct (is_str (msg_type metadata) (lit "partial") && show_partial self);
    [|destruct (is_str (msg_type metadata) (lit "final") && show_final self);
      [|destruct (is_str (msg_type metadata) (lit "complete"))]];
    cbn [orb]; try reflexivity;
    destruct os as [|[|] r]; reflexivity.
Qed.

(** C10.  [send] of the console sink returns [True] for every event whose
    printing raises nothing, and for every event it prints nothing for (a
    partial event while [show_partial] is off, a final event while
    [show_final] is off, a message type it does not know) - then leaving
    the world untouched; so a dispatch whose only handler is the console
    sink returns [True] in both cases, also when nothing was displayed. *)
Theorem console_success_does_not_need_display
    (self : t) (text : text) (metadata : option pydict) (w : world) :
  hd false (stdout_script w) = false \/ displays self metadata = false ->
  fst (send self text metadata w) = Ok (PBool true)
  /\ (displays self metadata = false ->
      send self text metadata w = (Ok (PBool true), w))
  /\ MultiOutputHandler.send [send self] text metadata w
     = (true, snd (send self text metadata w)).
Proof.
  intros H.
  assert (H1 : fst (send self text metadata w) = Ok (PBool true)).
  { rewrite console_send_unfold.
    destruct (displays self metadata); [|reflexivity].
    destruct H as [H|H]; [|discriminate]. now rewrite H. }
  split; [exact H1|]. split.
  - intros Hd. rewrite console_send_unfold. now rewrite Hd.
  - unfold MultiOutputHandler.send, mbind. cbn [MultiOutputHandler.collect].
    unfold mbind. destruct (send self text metadata w) as [o w1].
    cbn [fst] in H1. subst o. reflexivity.
Qed.

(** The default console sink on a partial event: nothing is printed and
    the dispatch reports success. *)
Lemma console_success_witness :
  fst (send default_console (lit "open the")
         (Some [(lit "type", PStr (lit "partial"))]) quiet)
  = Ok (PBool true)
  /\ (displays default_console (Some [(lit "type", PStr (lit "partial"))]) = false ->
      send default_console (lit "open the")
        (Some [(lit "type", PStr (lit "partial"))]) quiet
      = (Ok (PBool true), quiet))
  /\ MultiOutputHandler.send [send default_console] (lit "open the")
       (Some [(lit "type", PStr (lit "partial"))]) quiet
     = (true, snd (send default_console (lit "open the")
                     (Some [(lit "type", PStr (lit "partial"))]) quiet)).
Proof.
  apply (console_success_does_not_need_display default_console (lit "open the")
           (Some [(lit "type", PStr (lit "partial"))]) quiet).
  right. reflexivity.
Defined.

End Console.

(* ===================================================================== *)
(** ** [VoskSTTEngine]: stopping, the watchdog and the capture loop *)
(* ===================================================================== *)

Section Engine.
Import VoskSTTEngine Spec.

Lemma stopped_count_app out1 out2 :
  stopped_count (out1 ++ out2) = (stopped_count out1 + stopped_count out2)%nat.
Proof. unfold stopped_count. now rewrite filter_app, length_app. Qed.

Lemma final_result_not_a_status env self :
  stopped_count (_safe_get_final_result env self) = 0%nat.
Proof.
  unfold _safe_get_final_result.
  destruct (result_text (final_result env) (lit "text")) as [text|e].
  - destruct (nonblank text); [|reflexivity].
    now destruct (on_complete_result self).
  - now destruct (on_error self).
Qed.

(** After [stop_listening] the engine is not listening, whatever
    happened during the call. *)
Lemma stop_listening_clears_flag env self :
  is_listening (fst (fst (stop_listening env self))) = false.
Proof.
  unfold stop_listening.
  destruct (is_listening self) eqn:E; cbn [negb]; [|exact E].
  destruct (stream_fails env); [reflexivity|].
  cbn [fst].
  repeat match goal with
         | |- context [if ?b then _ else _] => destruct b
         end; reflexivity.
Qed.

(** C9.  After a [stop_listening] made while listening - whether it
    returned or raised, whatever the thread and the recognizer did - a
    second [stop_listening] returns at once: the engine is left exactly as
    it was and no callback is called; so ["listening_stopped"] is
    announced by the pair of calls as often as by the first one alone,
    which is at most once. *)
Theorem stop_listening_idempotent
    (self : t) (env1 env2 : stop_env) :
  is_listening self = true ->
  let s1 := fst (fst (stop_listening env1 self)) in
  let out1 := snd (fst (stop_listening env1 self)) in
  stop_listening env2 s1 = (s1, [], Ok tt)
  /\ stopped_count (out1 ++ snd (fst (stop_listening env2 s1)))
     = stopped_count out1
  /\ stopped_count out1
     = (if stream_fails env1 then 0
        else if on_status_change self then 1 else 0)%nat.
Proof.
  intros Hl. cbn zeta.
  assert (H2 : stop_listening env2 (fst (fst (stop_listening env1 self)))
               = (fst (fst (stop_listening env1 self)), [], Ok tt)).
  { unfold stop_listening at 1.
    now rewrite stop_listening_clears_flag. }
  split; [exact H2|]. split.
  - rewrite H2. cbn [fst snd]. now rewrite app_nil_r.
  - unfold stop_listening. rewrite Hl. cbn [negb].
    destruct (stream_fails env1); [reflexivity|].
    cbn [fst snd]. rewrite stopped_count_app, final_result_not_a_status.
    repeat match goal with
           | |- context [if ?b then with_stream _ _ else _] => destruct b
           | |- context [if ?b then with_timer _ _ else _] => destruct b
           | |- context [if ?b then with_thread _ _ else _] => destruct b
           end;
      cbn [on_status_change with_stream with_timer with_thread with_flags];
      now destruct (on_status_change self).
Qed.

Lemma stop_listening_idempotent_witness :
  let s1 := fst (fst (stop_listening calm_stop
                        (fst (run [Start false] configured)))) in
  stop_listening calm_stop s1 = (s1, [], Ok tt)
  /\ snd (fst (stop_listening calm_stop (fst (run [Start false] configured))))
     = [OnComplete (lit "open the window"); OnStatus (lit "listening_stopped")].
Proof.
  split.
  - exact (proj1 (stop_listening_idempotent
                    (fst (run [Start false] configured)) calm_stop calm_stop
                    eq_refl)).
  - vm_compute. reflexivity.
Defined.

(** A pass of the capture loop leaves the engine as it is. *)
Lemma loop_pass_state c self : fst (fst (loop_pass c self)) = self.
Proof.
  unfold loop_pass.
  destruct (stop_event self); [reflexivity|].
  destruct (negb (is_running self) || negb (is_listening self)
            || shutdown_requested self); [reflexivity|].
  destruct c as [|result|partial|message]; try reflexivity.
  - now destruct (result_text result (lit "text")).
  - now destruct (result_text partial (lit "partial")).
  - now destruct (contains (lit "Input overflowed") message).
Qed.

Lemma loop_exit_state passes :
  forall self s' out,
    _audio_processing_loop passes self = Some (s', out) ->
    s' = with_thread (Some false) self.
Proof.
  induction passes as [|c rest IH]; intros self s' out; [discriminate|].
  cbn [_audio_processing_loop].
  pose proof (loop_pass_state c self) as Hs.
  destruct (loop_pass c self) as [[s1 out1] goes_on]. cbn [fst] in Hs. subst s1.
  destruct goes_on.
  - destruct (_audio_processing_loop rest self) as [[s2 out2]|] eqn:E;
      [|discriminate].
    intros [= <- _]. now apply IH with (out := out2).
  - now intros [= <- _].
Qed.

(** Once the event is set the loop is left at its next pass, without a
    callback. *)
Lemma loop_exits_on_event c rest self :
  stop_event self = true ->
  _audio_processing_loop (c :: rest) self
  = Some (with_thread (Some false) self, []).
Proof.
  intros H. cbn [_audio_processing_loop]. unfold loop_pass. now rewrite H.
Qed.

(** A [stop_listening] made while listening is its two parts, one after
    the other. *)
Lemma stop_listening_two_phases (env : stop_env) (self : t) :
  is_listening self = true ->
  stop_listening env self
  = stop_listening_unlocked env (stop_listening_locked self).
Proof.
  intros H. unfold stop_listening, stop_listening_unlocked,
    stop_listening_locked. now rewrite H.
Qed.

(** C3 (the code at the failing inputs).  An engine with the watchdog set
    is started.  In the first run the watchdog fires and the loop is left
    on the event; in the second a read fails and the loop is left on the
    error; in the third [stop_listening] has set the event under the lock
    and the loop is left before the stream call that follows.  Each time
    the thread is over and the stream is still active: nothing in the loop
    pauses it; only the rest of [stop_listening] does, in the third run
    after the loop was left, in the first two not before somebody calls
    it. *)
Lemma loop_exit_with_active_stream :
  (let s := fst (run [Start false; TimerFires] configured) in
   stop_event s = true
   /\ exists s' out,
        _audio_processing_loop [NoData] s = Some (s', out)
        /\ audio_thread s' = Some false
        /\ stream_active s' = true)
  /\ (let s := fst (run [Start false] configured) in
      exists s' out,
        _audio_processing_loop [NoData; ReadError (lit "Unanticipated host error")] s
        = Some (s', out)
        /\ out = [OnError (lit "音声処理エラー")]
        /\ audio_thread s' = Some false
        /\ stream_active s' = true)
  /\ (let s := stop_listening_locked (fst (run [Start false] configured)) in
      exists s',
        _audio_processing_loop [NoData] s = Some (s', [])
        /\ audio_thread s' = Some false
        /\ stream_active s' = true
        /\ stream_active (fst (fst (stop_listening_unlocked calm_stop s'))) = false).
Proof.
  split; [|split].
  - split; [reflexivity|]. eexists. eexists.
    split; [vm_compute; reflexivity|]. split; reflexivity.
  - eexists. eexists.
    split; [vm_compute; reflexivity|]. repeat split; reflexivity.
  - eexists. split; [vm_compute; reflexivity|]. repeat split; reflexivity.
Qed.

End Engine.

(* ===================================================================== *)
(** ** Text: [strip] is idempotent *)
(* ===================================================================== *)

Lemma lstrip_head (s : text) (c : char) (r : text) :
  lstrip s = c :: r -> isspace c = false.
Proof.
  induction s as [|a s IH]; simpl; [discriminate|].
  destruct (isspace a) eqn:E; [exact IH|].
  intros [= <- _]. exact E.
Qed.

Lemma lstrip_idem (s : text) : lstrip (lstrip s) = lstrip s.
Proof.
  destruct (lstrip s) as [|c r] eqn:E; [reflexivity|].
  apply lstrip_nonspace. exact (lstrip_head _ _ _ E).
Qed.

Lemma rstrip_idem (s : text) : rstrip (rstrip s) = rstrip s.
Proof. unfold rstrip. now rewrite rev_involutive, lstrip_idem. Qed.

Lemma lstrip_keeps_last (l : text) (c : char) :
  isspace c = false -> exists q, lstrip (l ++ [c]) = q ++ [c].
Proof.
  intros H. induction l as [|a l [q IH]]; simpl.
  - rewrite H. now exists [].
  - destruct (isspace a); [now exists q|]. now exists (a :: l).
Qed.

Lemma rstrip_keeps_head (c : char) (r : text) :
  isspace c = false -> exists r', rstrip (c :: r) = c :: r'.
Proof.
  intros H. unfold rstrip. simpl rev.
  destruct (lstrip_keeps_last (rev r) c H) as [q ->].
  exists (rev q). now rewrite rev_app_distr.
Qed.

(** [strip] is idempotent. *)
Lemma strip_idem (s : text) : strip (strip s) = strip s.
Proof.
  unfold strip. destruct (lstrip s) as [|c r] eqn:E; [reflexivity|].
  pose proof (lstrip_head _ _ _ E) as Hc.
  destruct (rstrip_keeps_head c r Hc) as [r' Hr].
  rewrite <- (rstrip_idem (c :: r)) at 2.
  rewrite Hr. now rewrite lstrip_nonspace.
Qed.

(* ===================================================================== *)
(** ** The actuator handler: writes, raw sending, cleanup, discovery *)
(* ===================================================================== *)

Section ESP32More.
Import SimpleESP32Handler Spec.
Context {R : Runtime}.

(** X1.  Blanks around the text given to [send] change nothing: the result
    and the world are those of the trimmed text. *)
Theorem send_ignores_outer_blanks
    (self : t) (T : text) (metadata : option pydict) (w : world) :
  send self (PStr T) metadata w = send self (PStr (strip T)) metadata w.
Proof. unfold send. cbn [py_str]. now rewrite strip_idem. Qed.


(** One write attempt, by what the port does. *)
Lemma write_attempt_cases command enc nl w :
  let f := hd SerialOk (serial_script w) in
  let r := write_attempt command enc nl w in
  serial_script (snd r) = tl (serial_script w)
  /\ http_script (snd r) = http_script w
  /\ match encode enc (command ++ nl), f with
     | Some b, SerialOk => fst r = true /\ trace (snd r) = trace w ++ [SerialWrite b]
     | Some b, FlushFails => fst r = false /\ trace (snd r) = trace w ++ [SerialWrite b]
     | _, _ => fst r = false /\ trace (snd r) = trace w
     end.
Proof.
  unfold write_attempt, mbind, next_serial. cbn zeta.
  destruct (serial_script w) as [|f r] eqn:Es; cbn [hd tl].
  - destruct (encode enc (command ++ nl)); cbn; rewrite ?Es; auto.
  - destruct f; destruct (encode enc (command ++ nl)); cbn; auto.
Qed.

Lemma try_patterns_writes command attempts :
  forall w, exists ws,
    trace (snd (try_patterns command attempts w))
    = trace w ++ map SerialWrite ws
    /\ (forall b, In b ws ->
          exists enc nl, In (enc, nl) attempts
                         /\ encode enc (command ++ nl) = Some b)
    /\ (fst (try_patterns command attempts w) = true -> ws <> [])
    /\ (List.length ws <= List.length attempts)%nat.
Proof.
  induction attempts as [|[enc nl] rest IH]; intros w.
  - exists []. cbn. rewrite app_nil_r. repeat split; auto; try discriminate.
    intros b [].
  - cbn [try_patterns]. unfold mbind.
    destruct (write_attempt_cases command enc nl w) as (_ & _ & Hc).
    cbn zeta in Hc.
    destruct (write_attempt command enc nl w) as [ok w1]. cbn [fst snd] in Hc.
    destruct (encode enc (command ++ nl)) as [b|] eqn:Ee.
    + destruct (hd SerialOk (serial_script w)); destruct Hc as [-> Ht].
      * exists [b]. cbn. repeat split; auto; try discriminate; try lia.
        intros b' [<-|[]]. exists enc, nl. auto.
      * destruct (IH w1) as (ws & H1 & H2 & H3 & H4). exists ws.
        rewrite H1, Ht. repeat split; auto; try (cbn; lia).
        intros b' Hb. destruct (H2 b' Hb) as (e & n & Hin & He).
        exists e, n. split; [now right|exact He].
      * destruct (IH w1) as (ws & H1 & H2 & H3 & H4). exists ws.
        rewrite H1, Ht. repeat split; auto; try (cbn; lia).
        intros b' Hb. destruct (H2 b' Hb) as (e & n & Hin & He).
        exists e, n. split; [now right|exact He].
      * destruct (IH w1) as (ws & H1 & H2 & H3 & H4). exists (b :: ws).
        rewrite H1, Ht. cbn. rewrite <- app_assoc. repeat split; auto.
        -- intros b' [<-|Hb].
           ++ exists enc, nl. auto.
           ++ destruct (H2 b' Hb) as (e & n & Hin & He).
              exists e, n. split; [now right|exact He].
        -- discriminate.
        -- lia.
    + assert (Hf : ok = false /\ trace w1 = trace w)
        by (destruct (hd SerialOk (serial_script w)); exact Hc).
      destruct Hf as [-> Ht].
      destruct (IH w1) as (ws & H1 & H2 & H3 & H4). exists ws.
      rewrite H1, Ht. repeat split; auto; try (cbn; lia).
      intros b' Hb. destruct (H2 b' Hb) as (e & n & Hin & He).
      exists e, n. split; [now right|exact He].
Qed.

(** X3.  [send_command] writes nothing but the command: every write is an
    encoding, in one of the encodings asked for, of the stripped command
    followed by one of the three line endings; there are at most three
    writes per encoding; and [True] is returned only by a connected handler
    after at least one write. *)
Theorem send_command_writes_only_the_command
    (self : t) (command : text) (encoding_list : list encoding) (w : world) :
  exists ws,
    trace (snd (send_command self command encoding_list w))
    = trace w ++ SendCommand command :: map SerialWrite ws
    /\ (forall b, In b ws ->
          exists enc nl,
            In enc encoding_list /\ In nl newline_patterns
            /\ encode enc (strip command ++ nl) = Some b)
    /\ (List.length ws <= 3 * List.length encoding_list)%nat
    /\ (fst (send_command self command encoding_list w) = true ->
        is_connected self = true /\ ws <> []).
Proof.
  unfold send_command, mbind, emit. cbn [fst snd].
  destruct (is_connected self); cbn [negb].
  - match goal with
    | |- context [try_patterns ?c ?a ?w0] =>
        destruct (try_patterns_writes c a w0) as (ws & H1 & H2 & H3 & H4)
    end.
    exists ws. rewrite H1. cbn [trace]. rewrite <- app_assoc.
    split; [reflexivity|]. split; [|split].
    + intros b Hb. destruct (H2 b Hb) as (enc & nl & Hin & He).
      exists enc, nl. apply in_flat_map in Hin.
      destruct Hin as (e & He1 & He2). apply in_map_iff in He2.
      destruct He2 as (n & [= <- <-] & Hn). auto.
    + eapply Nat.le_trans; [exact H4|]. clear.
      induction encoding_list as [|e l IH]; [cbn; lia|].
      cbn [flat_map]. rewrite length_app, length_map. cbn in *. lia.
    + intros Ht. split; [reflexivity|]. now apply H3.
  - exists []. cbn. repeat split; auto; try lia; try discriminate.
Qed.

End ESP32More.

Section ESP32Port.
Import SimpleESP32Handler Spec.

Lemma encode_ascii_spec s :
  encode_ascii s = if is_ascii_text s then Some s else None.
Proof. reflexivity. Qed.

Lemma is_ascii_text_app s t :
  is_ascii_text (s ++ t) = is_ascii_text s && is_ascii_text t.
Proof. apply forallb_app. Qed.

Lemma encode_ascii_some s b : encode_ascii s = Some b -> b = s.
Proof. rewrite encode_ascii_spec. destruct (is_ascii_text s); congruence. Qed.

Lemma encode_ascii_app s nl :
  encode_ascii nl = Some nl ->
  encode_ascii (s ++ nl)
  = match encode_ascii s with Some _ => Some (s ++ nl) | None => None end.
Proof.
  rewrite !encode_ascii_spec, is_ascii_text_app.
  destruct (is_ascii_text s); cbn [andb]; [|reflexivity].
  destruct (is_ascii_text nl); [reflexivity|discriminate].
Qed.

Lemma encode_utf8_app s nl bnl :
  encode_utf8 nl = Some bnl ->
  encode_utf8 (s ++ nl)
  = match encode_utf8 s with Some b => Some (b ++ bnl) | None => None end.
Proof.
  intros Hn. induction s as [|c s IH]; cbn [encode_utf8 app].
  - exact Hn.
  - rewrite IH. destruct (utf8_char c); [|reflexivity].
    destruct (encode_utf8 s); [|reflexivity]. now rewrite app_assoc.
Qed.

(** Text that ASCII can encode, UTF-8 encodes to the same bytes. *)
Lemma encode_ascii_utf8 s b : encode_ascii s = Some b -> encode_utf8 s = Some b.
Proof.
  intros H. pose proof (encode_ascii_some _ _ H) as ->.
  rewrite encode_ascii_spec in H.
  destruct (is_ascii_text s) eqn:E; [|discriminate]. clear H.
  unfold is_ascii_text in E.
  induction s as [|c s IH]; [reflexivity|].
  cbn in E. apply andb_prop in E. destruct E as [Ec Es].
  cbn [encode_utf8]. unfold utf8_char. rewrite Ec, (IH Es). reflexivity.
Qed.

(** On a port that accepts everything, an attempt succeeds as soon as the
    message can be encoded. *)
Lemma write_attempt_healthy command enc nl w :
  serial_script w = [] ->
  write_attempt command enc nl w
  = match encode enc (command ++ nl) with
    | Some b => (true, snd (emit (SerialWrite b) w))
    | None => (false, w)
    end.
Proof.
  intros Hs. unfold write_attempt, mbind, next_serial. rewrite Hs.
  destruct (encode enc (command ++ nl)); reflexivity.
Qed.

(** [send_command] on a connected handler whose port accepts
    everything. *)
Lemma send_command_healthy
    (self : t) (command : text) (w : world) :
  is_connected self = true ->
  serial_script w = [] ->
  let r := send_command self command default_encoding_list w in
  match encode_utf8 (strip command) with
  | Some b =>
      fst r = true
      /\ trace (snd r) = trace w ++ [SendCommand command; SerialWrite (b ++ [10%N])]
  | None =>
      fst r = false /\ trace (snd r) = trace w ++ [SendCommand command]
  end.
Proof.
  intros Hc Hs. cbn zeta. unfold send_command, mbind. rewrite Hc. cbn [negb].
  set (w0 := snd (emit (SendCommand command) w)).
  assert (Hs0 : serial_script w0 = []) by exact Hs.
  change (emit (SendCommand command) w) with (tt, w0). cbn iota.
  cbn [default_encoding_list newline_patterns flat_map map app try_patterns].
  unfold mbind.
  destruct (encode_ascii (strip command)) as [b|] eqn:Ea.
  - pose proof (encode_ascii_utf8 _ _ Ea) as Hu. rewrite Hu.
    pose proof (encode_ascii_some _ _ Ea) as ->.
    rewrite (write_attempt_healthy _ _ _ _ Hs0). cbn [encode].
    rewrite (encode_ascii_app _ [10%N] eq_refl), Ea.
    cbn [fst snd emit trace]. split; [reflexivity|].
    unfold w0. cbn. now rewrite <- app_assoc.
  - rewrite (write_attempt_healthy _ _ _ _ Hs0); cbn [encode].
    rewrite (encode_ascii_app _ [10%N] eq_refl), Ea.
    rewrite (write_attempt_healthy _ _ _ _ Hs0); cbn [encode].
    rewrite (encode_ascii_app _ [13%N; 10%N] eq_refl), Ea.
    rewrite (write_attempt_healthy _ _ _ _ Hs0); cbn [encode].
    rewrite (encode_ascii_app _ [13%N] eq_refl), Ea.
    rewrite (write_attempt_healthy _ _ _ _ Hs0). cbn [encode].
    rewrite (encode_utf8_app _ [10%N] [10%N] eq_refl).
    destruct (encode_utf8 (strip command)) as [b|] eqn:Eu.
    + cbn [fst snd emit trace]. split; [reflexivity|].
      unfold w0. cbn. now rewrite <- app_assoc.
    + rewrite (write_attempt_healthy _ _ _ _ Hs0); cbn [encode].
      rewrite (encode_utf8_app _ [13%N; 10%N] [13%N; 10%N] eq_refl), Eu.
      rewrite (write_attempt_healthy _ _ _ _ Hs0); cbn [encode].
      rewrite (encode_utf8_app _ [13%N] [13%N] eq_refl), Eu.
      cbn. split; reflexivity.
Qed.

(** X4.  On a connected handler whose port accepts everything,
    [send_command] makes exactly one write, the stripped command and a line
    feed: in ASCII when the command is ASCII, else in UTF-8 (after three
    ASCII attempts that touch nothing); a command that UTF-8 cannot encode
    (a lone surrogate) is not written and the result is [False]. *)
Theorem send_command_on_healthy_port
    (self : t) (command : text) (w : world) :
  is_connected self = true ->
  serial_script w = [] ->
  let r := send_command self command default_encoding_list w in
  match encode_utf8 (strip command) with
  | Some b =>
      fst r = true
      /\ trace (snd r) = trace w ++ [SendCommand command; SerialWrite (b ++ [10%N])]
  | None =>
      fst r = false /\ trace (snd r) = trace w ++ [SendCommand command]
  end.
Proof. exact (send_command_healthy self command w). Qed.

(** X5.  A flush that fails after the write makes the command go out
    again: when the first attempt fails in [flush] and the port accepts
    the second, an ASCII command is written twice, with a line feed and
    then with carriage return and line feed, and the result is [True]. *)
Theorem flush_failure_repeats_the_command
    (self : t) (command b : text) (rest : list serial_fault) (w : world) :
  is_connected self = true ->
  encode_ascii (strip command) = Some b ->
  serial_script w = FlushFails :: rest ->
  hd SerialOk rest = SerialOk ->
  let r := send_command self command default_encoding_list w in
  fst r = true
  /\ trace (snd r)
     = trace w ++ [SendCommand command; SerialWrite (b ++ [10%N]);
                   SerialWrite (b ++ [13%N; 10%N])].
Proof.
  intros Hc Ea Hs Hr. cbn zeta. unfold send_command, mbind. rewrite Hc.
  cbn [negb].
  pose proof (encode_ascii_some _ _ Ea) as ->.
  set (w0 := snd (emit (SendCommand command) w)).
  change (emit (SendCommand command) w) with (tt, w0). cbn iota.
  cbn [default_encoding_list newline_patterns flat_map map app try_patterns].
  unfold mbind.
  destruct (write_attempt_cases (strip command) Ascii [10%N] w0) as (S1 & _ & C1).
  cbn zeta in C1. cbn [encode] in C1.
  rewrite (encode_ascii_app _ [10%N] eq_refl), Ea in C1.
  change (serial_script w0) with (serial_script w) in C1, S1.
  rewrite Hs in C1, S1. cbn [hd tl] in C1, S1.
  destruct (write_attempt (strip command) Ascii [10%N] w0) as [ok1 w1].
  cbn [fst snd] in C1, S1. destruct C1 as [-> T1].
  destruct (write_attempt_cases (strip command) Ascii [13%N; 10%N] w1)
    as (_ & _ & C2).
  cbn zeta in C2. cbn [encode] in C2.
  rewrite (encode_ascii_app _ [13%N; 10%N] eq_refl), Ea in C2.
  rewrite S1, Hr in C2.
  destruct (write_attempt (strip command) Ascii [13%N; 10%N] w1) as [ok2 w2].
  cbn [fst snd] in C2. destruct C2 as [-> T2].
  cbn. split; [reflexivity|].
  rewrite T2, T1. unfold w0. cbn. now rewrite <- !app_assoc.
Qed.

(** X6.  [send_raw_bytes] sends the command as it is: no stripping, ASCII
    only, one attempt.  On a port that accepts everything an ASCII command
    is written once with a line feed; a command that is not ASCII, or a
    handler that is not connected, gives [False] and leaves the world
    untouched. *)
Theorem send_raw_bytes_is_raw
    (self : t) (command : text) (w : world) :
  (is_connected self = false -> send_raw_bytes self command w = (false, w))
  /\ (encode_ascii command = None -> send_raw_bytes self command w = (false, w))
  /\ (is_connected self = true -> serial_script w = [] ->
      forall b, encode_ascii command = Some b ->
      send_raw_bytes self command w
      = (true, snd (emit (SerialWrite (command ++ [10%N])) w))).
Proof.
  unfold send_raw_bytes. repeat split.
  - now intros ->.
  - intros ->. now destruct (is_connected self).
  - intros -> Hs b Hb. cbn [negb]. rewrite Hb.
    pose proof (encode_ascii_some _ _ Hb) as ->.
    unfold mbind, next_serial. now rewrite Hs.
Qed.

(** X7.  After [cleanup] nothing reaches the port any more: [send_command],
    [send_raw_bytes] and [send] return [False] without a write; and a
    second [cleanup] changes nothing. *)
Theorem nothing_is_sent_after_cleanup
    {R : Runtime} (self : t) (command : text) (text : pyval)
    (metadata : option pydict) (encoding_list : list encoding) (w : world) :
  send_command (cleanup self) command encoding_list w
  = (false, snd (emit (SendCommand command) w))
  /\ send_raw_bytes (cleanup self) command w = (false, w)
  /\ fst (send (cleanup self) text metadata w) = false
  /\ (forall b, ~ In (SerialWrite b) (trace w) ->
                ~ In (SerialWrite b) (trace (snd (send (cleanup self) text metadata w))))
  /\ cleanup (cleanup self) = cleanup self.
Proof.
  split; [reflexivity|]. split; [reflexivity|].
  rewrite send_guard.
  destruct (command_to_send (cleanup self) (strip (py_str text))) as [[|c0 c]|];
    try (repeat split; auto; fail).
  destruct (text_eqb (c0 :: c) move0); [repeat split; auto|].
  split; [reflexivity|]. split; [|reflexivity].
  intros b Hb Hin. cbn in Hin. apply in_app_or in Hin.
  destruct Hin as [Hin|[Hin|[]]]; [contradiction|discriminate].
Qed.

End ESP32Port.

(* ===================================================================== *)
(** ** The actuator handler: what becomes of a span that is not a command *)
(* ===================================================================== *)

Section ESP32Fallback.
Import SimpleESP32Handler Spec.
Context {R : Runtime}.




End ESP32Fallback.

Section ESP32FallbackExamples.
Import SimpleESP32Handler Spec.



End ESP32FallbackExamples.

Section ESP32Discovery.
Import SimpleESP32Handler Spec.
Variable upper_wide : text -> text.

Lemma strip_prefix_app (p s : text) : Json.strip_prefix p (p ++ s) = Some s.
Proof.
  induction p as [|a p IH]; [reflexivity|].
  cbn. now rewrite N.eqb_refl.
Qed.

Lemma occurs_in_unfold (needle s : text) :
  occurs_in needle s
  = match Json.strip_prefix needle s with
    | Some _ => true
    | None => match s with [] => false | _ :: r => occurs_in needle r end
    end.
Proof. destruct s; reflexivity. Qed.

Lemma occurs_in_middle (needle a b : text) :
  occurs_in needle (a ++ needle ++ b) = true.
Proof.
  induction a as [|c a IH]; rewrite occurs_in_unfold.
  - cbn [app]. now rewrite strip_prefix_app.
  - cbn [app].
    destruct (Json.strip_prefix needle (c :: a ++ needle ++ b)); [reflexivity|].
    exact IH.
Qed.

Lemma is_latin1_app (s t : text) :
  is_latin1 (s ++ t) = is_latin1 s && is_latin1 t.
Proof. apply forallb_app. Qed.

(** X8.  Matching ignores the letter case.  A port is taken for an ESP32 as
    soon as its description, within U+0000..U+00FF, contains a piece that
    upper-cases to an upper-cased keyword; so ["usb-SERIAL ch340"],
    ["arduino uno"] or ["Esp32 dev"] all match. *)
Theorem port_matching_ignores_case
    (p : port_info) (a piece b keyword : text) :
  In keyword esp32_keywords ->
  description p = a ++ piece ++ b ->
  is_latin1 (description p) = true ->
  upper upper_wide piece = upper upper_wide keyword ->
  looks_like_esp32 upper_wide p = true.
Proof.
  intros Hk Hd Hl Hu. unfold looks_like_esp32.
  apply existsb_exists. exists keyword. split; [exact Hk|].
  rewrite <- Hu. unfold upper at 2. rewrite Hl, Hd.
  rewrite Hd, !is_latin1_app in Hl.
  apply andb_prop in Hl. destruct Hl as [_ Hl].
  apply andb_prop in Hl. destruct Hl as [Hp _].
  unfold upper. rewrite Hp, !flat_map_app.
  apply occurs_in_middle.
Qed.

(** X9.  [find_esp32_port] returns the device of the first listed port that
    looks like an ESP32, and [None] exactly when no listed port does. *)
Theorem find_esp32_port_is_first_match (ports : list port_info) :
  (forall dev,
     find_esp32_port upper_wide ports = Some dev
     <-> exists before p after,
           ports = before ++ p :: after
           /\ device p = dev
           /\ looks_like_esp32 upper_wide p = true
           /\ forall q, In q before -> looks_like_esp32 upper_wide q = false)
  /\ (find_esp32_port upper_wide ports = None
      <-> forall q, In q ports -> looks_like_esp32 upper_wide q = false).
Proof.
  induction ports as [|x rest [IH1 IH2]].
  - split.
    + intros dev. split; [discriminate|].
      intros (before & p & after & E & _). now destruct before.
    + split; [intros _ q []|reflexivity].
  - cbn [find_esp32_port].
    destruct (looks_like_esp32 upper_wide x) eqn:Ex.
    + split.
      * intros dev. split.
        -- intros [= <-]. exists [], x, rest. repeat split; auto.
           intros q [].
        -- intros (before & p & after & E & Hd & Hp & Hb).
           destruct before as [|y before]; cbn in E.
           ++ injection E as <- _. now rewrite Hd.
           ++ injection E as <- _. rewrite (Hb x (or_introl eq_refl)) in Ex.
              discriminate.
      * split; [discriminate|].
        intros H. rewrite (H x (or_introl eq_refl)) in Ex. discriminate.
    + split.
      * intros dev. rewrite IH1. split.
        -- intros (before & p & after & -> & Hd & Hp & Hb).
           exists (x :: before), p, after. repeat split; auto.
           intros q [<-|Hq]; auto.
        -- intros (before & p & after & E & Hd & Hp & Hb).
           destruct before as [|y before]; cbn in E.
           ++ injection E as <- _. rewrite Hp in Ex. discriminate.
           ++ injection E as <- ->. exists before, p, after.
              repeat split; auto. intros q Hq. apply Hb. now right.
      * rewrite IH2. split.
        -- intros H q [<-|Hq]; auto.
        -- intros H q Hq. apply H. now right.
Qed.

(** X10.  A handler that is built ends up connected exactly when a port
    is at hand - the one given, or else the one found - and
    [serial.Serial] opens it.  A handler that is not connected has
    touched nothing; one that is connected has written at most the line
    ["test"], and only in debug mode. *)
Theorem handler_connects_iff_port_opens
    (env : serial_env) (port : option text) (debug : bool) (w : world) :
  let r := __init__ upper_wide env port debug w in
  let chosen := match port with
                | Some (_ :: _) => port
                | _ => find_esp32_port upper_wide (comports env)
                end in
  snd (fst r) = chosen
  /\ SimpleESP32Handler.debug (fst (fst r)) = debug
  /\ (is_connected (fst (fst r)) = true
      <-> exists dev, chosen = Some dev /\ dev <> [] /\ opens env dev = true)
  /\ (is_connected (fst (fst r)) = false \/ debug = false -> snd r = w)
  /\ (trace (snd r) = trace w
      \/ trace (snd r) = trace w ++ [SerialWrite (lit "test" ++ [10%N])]).
Proof.
  cbn zeta. unfold __init__, _connect, mbind.
  set (chosen := match port with
                 | Some (_ :: _) => port
                 | _ => find_esp32_port upper_wide (comports env)
                 end).
  destruct chosen as [[|c p]|] eqn:Ec.
  - cbn. repeat split; auto; try discriminate.
    intros (dev & [= <-] & Hne & _). exfalso. now apply Hne.
  - destruct (opens env (c :: p)) eqn:Eo.
    + destruct debug.
      * unfold _test_connection, mbind, next_serial.
        destruct (serial_script w) as [|[| | |] rest] eqn:Es; cbn;
          (repeat split; auto; try discriminate;
           [intros _; exists (c :: p); repeat split; auto; discriminate
           |intros [H|H]; discriminate]).
      * cbn. repeat split; auto; try discriminate.
        intros _. exists (c :: p). repeat split; auto. discriminate.
    + cbn. repeat split; auto; try discriminate.
      intros (dev & [= <-] & _ & Ho). congruence.
  - cbn. repeat split; auto; try discriminate.
    intros (dev & H & _). discriminate.
Qed.

End ESP32Discovery.

(* ===================================================================== *)
(** ** The completion handler: attempts and backoff *)
(* ===================================================================== *)

Section OpenAIMore.
Import OpenAIAPIHandler Spec.
Context {R : Runtime}.

(** X11.  Without attempts there is no request: with [retry_count] zero or
    negative, [send] returns [False] at once and the world is untouched. *)
Theorem no_request_without_attempts
    (self : t) (text : text) (metadata : option pydict) (w : world)
    (system : pyval) (user : PyText.text) :
  (retry_count self <= 0)%Z ->
  payload self text metadata = Ok (system, user) ->
  send self text metadata w = (Ok false, w).
Proof.
  intros Hn Hp. unfold send. rewrite Hp. unfold range.
  replace (Z.to_nat (retry_count self)) with 0%nat by lia. reflexivity.
Qed.

(** A handler without system prompt cannot take metadata: with
    [system_prompt] left at [None] and a metadata dictionary that is not
    empty, [send] raises [TypeError] while it builds the payload, before
    any request. *)
Lemma missing_prompt_raises_before_any_request
    (self : t) (text : text) (kv : PyText.text * pyval) (md : pydict) (w : world) :
  system_prompt self = None ->
  send self text (Some (kv :: md)) w = (Raise TypeError, w).
Proof. intros H. unfold send, payload. now rewrite H. Qed.

(** A retried attempt: the request, the sleep unless the attempt is the
    last one, and on to the next attempt. *)
Lemma attempts_retried self system user attempt rest w :
  retried (reply_at w 0) = true ->
  exists w1,
    attempts self system user (attempt :: rest) w
    = attempts self system user rest w1
    /\ http_script w1 = tl (http_script w)
    /\ serial_script w1 = serial_script w
    /\ trace w1 = trace w
                  ++ HttpPost system user
                     :: (if (attempt <? retry_count self - 1)%Z
                         then [Sleep (2 ^ attempt)] else []).
Proof.
  intros Hr. rewrite attempts_unfold. cbn zeta.
  set (w0 := snd (emit (HttpPost system user) w)).
  assert (Hrep : fst (next_http w0) = reply_at w 0)
    by (rewrite next_http_reply; reflexivity).
  assert (Hs : http_script (snd (next_http w0)) = tl (http_script w))
    by (rewrite next_http_script; reflexivity).
  assert (Ht : trace (snd (next_http w0)) = trace w ++ [HttpPost system user])
    by (rewrite next_http_trace; reflexivity).
  assert (Hser : serial_script (snd (next_http w0)) = serial_script w).
  { unfold next_http. destruct (http_script w0); reflexivity. }
  exists (if (attempt <? retry_count self - 1)%Z
          then snd (emit (Sleep (2 ^ attempt)) (snd (next_http w0)))
          else snd (next_http w0)).
  split.
  - rewrite Hrep. destruct (reply_at w 0) as [| |status body];
      try reflexivity.
    cbn [retried] in Hr.
    destruct (status =? 200)%Z.
    + destruct body; [discriminate|reflexivity].
    + destruct (status =? 401)%Z; [discriminate|reflexivity].
  - destruct (attempt <? retry_count self - 1)%Z; cbn [emit snd http_script
      serial_script trace]; rewrite ?Hs, ?Hser, ?Ht, <- ?app_assoc;
      repeat split; reflexivity.
Qed.

Lemma reply_at_skip w w1 j :
  http_script w1 = tl (http_script w) -> reply_at w1 j = reply_at w (S j).
Proof.
  unfold reply_at. intros ->.
  destruct (http_script w); [now destruct j|reflexivity].
Qed.

Lemma attempts_all_retried self system user :
  forall len a w,
    (forall j, (j < len)%nat -> retried (reply_at w j) = true) ->
    exists w',
      attempts self system user (map Z.of_nat (seq a len)) w = (Ok false, w')
      /\ http_script w' = skipn len (http_script w)
      /\ trace w'
         = trace w
           ++ flat_map (fun k =>
                HttpPost system user
                :: (if (Z.of_nat k <? retry_count self - 1)%Z
                    then [Sleep (2 ^ Z.of_nat k)] else []))
              (seq a len).
Proof.
  induction len as [|len IH]; intros a w Hall.
  - exists w. repeat split; try reflexivity. cbn. now rewrite app_nil_r.
  - cbn [seq map].
    destruct (attempts_retried self system user (Z.of_nat a)
                (map Z.of_nat (seq (S a) len)) w (Hall 0%nat ltac:(lia)))
      as (w1 & E & Hs & _ & Ht).
    destruct (IH (S a) w1) as (w' & E' & Hs' & Ht').
    { intros j Hj. rewrite (reply_at_skip w w1 j Hs). apply Hall. lia. }
    exists w'. rewrite E, E'. split; [reflexivity|]. split.
    + rewrite Hs', Hs.
      destruct (http_script w); [cbn [tl]; now rewrite !skipn_nil|reflexivity].
    + rewrite Ht', Ht. cbn [flat_map]. now rewrite <- app_assoc.
Qed.

Lemma flat_map_agree {A B : Type} (f g : A -> list B) (l : list A) :
  (forall x, In x l -> f x = g x) -> flat_map f l = flat_map g l.
Proof.
  induction l as [|x l IH]; intros H; [reflexivity|].
  cbn [flat_map]. rewrite (H x (or_introl eq_refl)), IH; [reflexivity|].
  intros y Hy. apply H. now right.
Qed.

Lemma backoff_trace_spec system user (n : nat) :
  flat_map (fun k =>
     HttpPost system user
     :: (if (Z.of_nat k <? Z.of_nat n - 1)%Z
         then [Sleep (2 ^ Z.of_nat k)] else []))
    (seq 0 n)
  = backoff_trace system user n.
Proof.
  destruct n as [|m]; [reflexivity|].
  unfold backoff_trace. rewrite seq_S, flat_map_app. cbn [flat_map Nat.add].
  replace (Z.of_nat m <? Z.of_nat (S m) - 1)%Z with false
    by (symmetry; apply Z.ltb_ge; lia).
  rewrite app_nil_r. f_equal.
  apply flat_map_agree. intros k Hk. apply in_seq in Hk.
  replace (Z.of_nat k <? Z.of_nat (S m) - 1)%Z with true
    by (symmetry; apply Z.ltb_lt; lia).
  reflexivity.
Qed.

(** X12.  The backoff schedule, for any number of attempts.  When each of
    the [retry_count] attempts gets a reply that is retried, [send] makes
    exactly [retry_count] requests, sleeps [2 ** k] seconds after the
    [k]-th of them (counting from 0) but not after the last, consumes
    exactly these replies, and returns [False]. *)
Theorem backoff_schedule
    (self : t) (text : text) (metadata : option pydict) (w : world)
    (system : pyval) (user : PyText.text) :
  payload self text metadata = Ok (system, user) ->
  (forall j, (j < Z.to_nat (retry_count self))%nat ->
             retried (reply_at w j) = true) ->
  exists w',
    send self text metadata w = (Ok false, w')
    /\ trace w' = trace w
                  ++ backoff_trace system user (Z.to_nat (retry_count self))
    /\ http_script w' = skipn (Z.to_nat (retry_count self)) (http_script w).
Proof.
  intros Hp Hall. unfold send. rewrite Hp. unfold range.
  destruct (attempts_all_retried self system user
              (Z.to_nat (retry_count self)) 0%nat w Hall)
    as (w' & E & Hs & Ht).
  exists w'. split; [exact E|]. split; [|exact Hs].
  rewrite Ht. f_equal.
  destruct (Z_le_gt_dec (retry_count self) 0) as [Hle|Hgt].
  - replace (Z.to_nat (retry_count self)) with 0%nat by lia. reflexivity.
  - rewrite <- backoff_trace_spec. apply flat_map_agree. intros k _.
    now rewrite Z2Nat.id by lia.
Qed.


Lemma count_app p (a b : list event) :
  count p (a ++ b) = (count p a + count p b)%nat.
Proof. unfold count. now rewrite filter_app, length_app. Qed.

Lemma count_writes p (ws : list (list N)) :
  (forall b, p (SerialWrite b) = false) -> count p (map SerialWrite ws) = 0%nat.
Proof.
  intros H. unfold count. induction ws as [|b ws IH]; [reflexivity|].
  cbn. now rewrite H.
Qed.

(** Forwarding to the actuator adds at most one [send_command] and
    neither a request nor a sleep. *)
Lemma forwarding_events esp32 v md w :
  exists evs,
    trace (snd (SimpleESP32Handler.send esp32 v md w)) = trace w ++ evs
    /\ count is_post evs = 0%nat
    /\ count is_sleep evs = 0%nat
    /\ (count is_forward evs <= 1)%nat.
Proof.
  rewrite send_guard.
  destruct (SimpleESP32Handler.command_to_send esp32 (strip (py_str v)))
    as [[|c0 c]|];
    try (exists []; cbn; rewrite app_nil_r; repeat split; auto; fail).
  destruct (text_eqb (c0 :: c) SimpleESP32Handler.move0);
    [exists []; cbn; rewrite app_nil_r; repeat split; auto|].
  destruct (send_command_trace esp32 (c0 :: c)
              SimpleESP32Handler.default_encoding_list w) as [ws H].
  exists (SendCommand (c0 :: c) :: map SerialWrite ws).
  split; [exact H|].
  change (SendCommand (c0 :: c) :: map SerialWrite ws)
    with ([SendCommand (c0 :: c)] ++ map SerialWrite ws).
  rewrite !count_app, !count_writes by reflexivity.
  cbn. repeat split; lia.
Qed.

Lemma attempts_events self system user :
  forall len a w,
    (len = 0%nat \/ Z.of_nat (a + len) = retry_count self) ->
    exists evs,
      trace (snd (attempts self system user (map Z.of_nat (seq a len)) w))
      = trace w ++ evs
      /\ (count is_post evs <= len)%nat
      /\ (len = 0%nat -> evs = [])
      /\ ((0 < len)%nat -> (count is_sleep evs + 1 <= count is_post evs)%nat)
      /\ (count is_forward evs <= 1)%nat.
Proof.
  induction len as [|len IH]; intros a w Hrc.
  - exists []. cbn. rewrite app_nil_r. repeat split; auto; lia.
  - destruct Hrc as [Hrc|Hrc]; [discriminate|].
    cbn [seq map]. rewrite attempts_unfold. cbn zeta.
    set (w0 := snd (emit (HttpPost system user) w)).
    assert (Ht : trace (snd (next_http w0)) = trace w ++ [HttpPost system user])
      by (rewrite next_http_trace; reflexivity).
    (* what a retried attempt leads to *)
    assert (Hback : exists evs,
      trace (snd (attempts self system user (map Z.of_nat (seq (S a) len))
                    (if (Z.of_nat a <? retry_count self - 1)%Z
                     then snd (emit (Sleep (2 ^ Z.of_nat a)) (snd (next_http w0)))
                     else snd (next_http w0))))
      = trace w ++ evs
      /\ (count is_post evs <= S len)%nat
      /\ (S len = 0%nat -> evs = [])
      /\ ((0 < S len)%nat -> (count is_sleep evs + 1 <= count is_post evs)%nat)
      /\ (count is_forward evs <= 1)%nat).
    { destruct (Z.of_nat a <? retry_count self - 1)%Z eqn:Ea.
      - destruct (IH (S a)
                    (snd (emit (Sleep (2 ^ Z.of_nat a)) (snd (next_http w0)))))
          as (evs & H1 & H2 & H3 & H4 & H5); [right; lia|].
        exists ([HttpPost system user; Sleep (2 ^ Z.of_nat a)] ++ evs).
        rewrite H1. cbn [emit snd trace]. rewrite Ht, <- !app_assoc.
        split; [reflexivity|]. rewrite !count_app.
        apply Z.ltb_lt in Ea.
        assert (0 < len)%nat by lia. specialize (H4 H).
        cbn. repeat split; try lia; discriminate.
      - apply Z.ltb_ge in Ea. assert (len = 0%nat) by lia. subst len.
        exists [HttpPost system user]. cbn [seq map attempts ret snd].
        rewrite Ht. cbn. repeat split; try lia; discriminate. }
    assert (Hstop : forall w1 (r : res bool),
      trace w1 = trace w ++ [HttpPost system user] ->
      exists evs,
        trace (snd (r, w1)) = trace w ++ evs
        /\ (count is_post evs <= S len)%nat
        /\ (S len = 0%nat -> evs = [])
        /\ ((0 < S len)%nat -> (count is_sleep evs + 1 <= count is_post evs)%nat)
        /\ (count is_forward evs <= 1)%nat).
    { intros w1 r H1. exists [HttpPost system user]. cbn [snd]. rewrite H1.
      cbn. repeat split; try lia; discriminate. }
    destruct (fst (next_http w0)) as [| |status body]; try exact Hback.
    destruct (status =? 200)%Z.
    + destruct body as [result|]; [|exact Hback].
      destruct (read_result result) as [ai|e]; [|now apply Hstop].
      destruct (esp32_handler self) as [esp32|]; [|now apply Hstop].
      destruct (forwarding_events esp32 ai None (snd (next_http w0)))
        as (evs & H1 & H2 & H3 & H4).
      exists ([HttpPost system user] ++ evs). cbn [snd].
      rewrite H1, Ht, <- app_assoc. split; [reflexivity|].
      rewrite !count_app, H2, H3. cbn. repeat split; try lia; discriminate.
    + destruct (status =? 401)%Z; [now apply Hstop|exact Hback].
Qed.

(** X13.  [send] is frugal.  Whatever the replies and the ports do, a call
    makes at most [retry_count] requests, sleeps only between requests
    (fewer sleeps than requests), and hands at most one command to the
    actuator handler. *)
Theorem requests_are_bounded
    (self : t) (text : text) (metadata : option pydict) (w : world) :
  exists evs,
    trace (snd (send self text metadata w)) = trace w ++ evs
    /\ (count is_post evs <= Z.to_nat (retry_count self))%nat
    /\ (evs = [] \/ (count is_sleep evs + 1 <= count is_post evs)%nat)
    /\ (count is_forward evs <= 1)%nat.
Proof.
  unfold send. destruct (payload self text metadata) as [[system user]|e].
  - unfold range.
    destruct (attempts_events self system user
                (Z.to_nat (retry_count self)) 0%nat w)
      as (evs & H1 & H2 & H3 & H4 & H5).
    { destruct (Z_le_gt_dec (retry_count self) 0); [left|right]; lia. }
    exists evs. split; [exact H1|]. split; [exact H2|]. split; [|exact H5].
    destruct (Z.to_nat (retry_count self)); [left; now apply H3|].
    right. apply H4. lia.
  - exists []. cbn. rewrite app_nil_r. repeat split; auto; lia.
Qed.

End OpenAIMore.

(* ===================================================================== *)
(** ** The dispatcher, the manager and the console sink *)
(* ===================================================================== *)

Section DispatchMore.
Import MultiOutputHandler Spec.

Lemma collect_app hs1 hs2 text metadata w :
  collect (hs1 ++ hs2) text metadata w
  = (fst (collect hs1 text metadata w)
     ++ fst (collect hs2 text metadata (snd (collect hs1 text metadata w))),
     snd (collect hs2 text metadata (snd (collect hs1 text metadata w)))).
Proof.
  revert w. induction hs1 as [|h hs1 IH]; intros w.
  - cbn. now destruct (collect hs2 text metadata w).
  - cbn [app collect]. unfold mbind.
    destruct (h text metadata w) as [o w1].
    rewrite IH.
    destruct (collect hs1 text metadata w1) as [r1 w2]. cbn [fst snd].
    unfold ret. cbn [fst snd].
    destruct (collect hs2 text metadata w2) as [r2 w3]. reflexivity.
Qed.

Lemma send_app
    (hs1 hs2 : list handler) (text : text) (metadata : option pydict)
    (w : world) :
  send (hs1 ++ hs2) text metadata w
  = (fst (send hs1 text metadata w)
     || fst (send hs2 text metadata (snd (send hs1 text metadata w))),
     snd (send hs2 text metadata (snd (send hs1 text metadata w)))).
Proof.
  unfold send, mbind. rewrite collect_app.
  destruct (collect hs1 text metadata w) as [r1 w1]. cbn [fst snd].
  unfold ret, any. cbn [fst snd].
  destruct (collect hs2 text metadata w1) as [r2 w2].
  cbn [fst snd]. now rewrite existsb_app.
Qed.

(** X14.  Dispatching to two lists of handlers joined is dispatching to the
    first and then, in the world it left, to the second; the result is the
    disjunction of the two results. *)
Theorem dispatch_of_joined_lists
    (hs1 hs2 : list handler) (text : text) (metadata : option pydict)
    (w : world) :
  send (hs1 ++ hs2) text metadata w
  = (fst (send hs1 text metadata w)
     || fst (send hs2 text metadata (snd (send hs1 text metadata w))),
     snd (send hs2 text metadata (snd (send hs1 text metadata w)))).
Proof. exact (send_app hs1 hs2 text metadata w). Qed.




End DispatchMore.

Section ManagerMore.
Import STTOutputManager Spec.

(** X16.  Routing by target.  A handler added for a target other than
    ["partial"] and ["all"] is never called for partial results, and
    likewise for final and complete results; and a target that is none of
    the four words registers the handler nowhere, without any error. *)
Theorem handlers_are_routed_by_target
    (target : text) (h : handler) (self : t) (text : PyText.text) (w : world) :
  (target <> lit "partial" -> target <> lit "all" ->
   handle_partial_result (add_for_target target h self) text w
   = handle_partial_result self text w)
  /\ (target <> lit "final" -> target <> lit "all" ->
      handle_final_result (add_for_target target h self) text w
      = handle_final_result self text w)
  /\ (target <> lit "complete" -> target <> lit "all" ->
      handle_complete_result (add_for_target target h self) text w
      = handle_complete_result self text w)
  /\ (target <> lit "partial" -> target <> lit "final" ->
      target <> lit "complete" -> target <> lit "all" ->
      add_for_target target h self = self).
Proof.
  unfold add_for_target.
  repeat split; intros;
    repeat match goal with
           | H : target <> _ |- _ => apply text_eqb_neq in H; rewrite ?H; clear H
           end;
    repeat match goal with
           | |- context [text_eqb target ?l] => destruct (text_eqb target l)
           end; try reflexivity; now destruct self.
Qed.

(** X17.  The manager as it is built.  Partial results are never displayed
    (the world stays as it is, whatever the console does); a final or a
    complete result is printed once, on a line of its own, when the console
    accepts it. *)
Theorem default_manager_displays_final_results_only
    (text : PyText.text) (w : world) :
  handle_partial_result __init__ text w = (tt, w)
  /\ (hd false (stdout_script w) = false ->
      trace (snd (handle_final_result __init__ text w))
      = trace w ++ [Print ([10%N] ++ lit "[" ++ clock w ++ lit "] " ++ text ++ [10%N])]
      /\ trace (snd (handle_complete_result __init__ text w))
         = trace w ++ [Print ([10%N] ++ lit "[" ++ clock w ++ lit "] 最終: "
                              ++ text ++ [10%N])]).
Proof.
  split; [reflexivity|]. intros H.
  unfold handle_final_result, handle_complete_result, __init__, mbind,
    MultiOutputHandler.send, mbind.
  cbn [final_handler complete_handler MultiOutputHandler.collect].
  unfold mbind. rewrite !console_send_unfold. cbn [displays msg_type].
  unfold dict_get. cbn. rewrite H. cbn.
  unfold next_stdout. destruct (stdout_script w) as [|f r] eqn:Es.
  - cbn. split; reflexivity.
  - cbn in H. subst f. cbn. split; reflexivity.
Qed.

Section WithRuntime.
Context {R : Runtime}.

(** X18.  An OpenAI handler registered without system prompt is inert.  The
    manager always sends metadata along, so the handler raises while it
    builds its payload, the dispatcher catches that, and final results
    are handled exactly as if the handler had not been added: no request
    is ever made. *)
Theorem openai_handler_without_prompt_is_inert
    (api_key model : PyText.text) (esp32_handler : option SimpleESP32Handler.t)
    (self : t) (text : PyText.text) (w : world) :
  handle_final_result
    (add_openai_handler api_key (lit "final") model None esp32_handler self)
    text w
  = handle_final_result self text w.
Proof.
  unfold add_openai_handler, add_for_target, handle_final_result.
  cbn [text_eqb]. change (text_eqb (lit "final") (lit "partial")) with false.
  change (text_eqb (lit "final") (lit "final")) with true. cbn iota.
  cbn [add_final_handler final_handler]. unfold mbind.
  rewrite send_app.
  destruct (MultiOutputHandler.send (final_handler self) text
              (Some [(lit "type", PStr (lit "final"))]) w) as [b1 w1].
  cbn [fst snd]. reflexivity.
Qed.

(** X19.  [add_simple_esp32_handler] registers the actuator handler for the
    targets ["final"] and ["complete"] only: with any other target
    (["partial"] and ["all"] included) the manager stays as it is although
    the handler is returned; and a handler that could not connect is
    neither registered nor returned. *)
Theorem esp32_handler_registered_for_final_or_complete_only
    (upper_wide : PyText.text -> PyText.text)
    (env : SimpleESP32Handler.serial_env) (port : option PyText.text)
    (target : PyText.text) (self : t) (w : world) :
  let r := fst (add_simple_esp32_handler upper_wide env port target self w) in
  let built := fst (fst (SimpleESP32Handler.__init__ upper_wide env port true w)) in
  (SimpleESP32Handler.is_connected built = false -> r = (self, None))
  /\ (SimpleESP32Handler.is_connected built = true -> snd r = Some built)
  /\ (target <> lit "final" -> target <> lit "complete" -> fst r = self)
  /\ (SimpleESP32Handler.is_connected built = true -> target = lit "final" ->
      final_handler (fst r)
      = final_handler self ++ [SimpleESP32Handler.as_handler built]).
Proof.
  cbn zeta. unfold add_simple_esp32_handler, mbind.
  destruct (SimpleESP32Handler.__init__ upper_wide env port true w)
    as [[h p] w1]. cbn [fst snd].
  destruct (SimpleESP32Handler.is_connected h) eqn:Ec; cbn [fst snd ret].
  - repeat split; try discriminate; auto.
    + intros H1 H2. apply text_eqb_neq in H1, H2. now rewrite H1, H2.
    + intros _ ->. reflexivity.
  - repeat split; try discriminate; auto.
Qed.

End WithRuntime.
End ManagerMore.

Section ConsoleMore.
Import ConsoleOutputHandler Spec.

(** X20.  The console sink never raises, and it returns [False] exactly when
    it had something to display and the [print] raised; nothing is
    displayed then. *)
Theorem console_fails_only_when_print_raises
    (self : t) (text : text) (metadata : option pydict) (w : world) :
  (fst (send self text metadata w) = Ok (PBool true)
   \/ fst (send self text metadata w) = Ok (PBool false))
  /\ (fst (send self text metadata w) = Ok (PBool false)
      <-> displays self metadata = true /\ hd false (stdout_script w) = true)
  /\ (fst (send self text metadata w) = Ok (PBool false) ->
      trace (snd (send self text metadata w)) = trace w).
Proof.
  rewrite console_send_unfold.
  destruct (displays self metadata); [|cbn; repeat split; auto; try discriminate;
                                       intros [H _]; discriminate].
  destruct (hd false (stdout_script w)) eqn:E.
  - cbn [fst snd]. repeat split; auto.
    unfold next_stdout. now destruct (stdout_script w).
  - cbn [fst snd]. repeat split; auto; try discriminate.
    intros [_ H]. discriminate.
Qed.

End ConsoleMore.

(* ===================================================================== *)
(** ** The file sink *)
(* ===================================================================== *)

Section FileMore.
Import FileOutputHandler Spec Json.
Context {R : Runtime}.

Lemma dumps_dict d : dumps (PDict d) = [123%N] ++ members_text d ++ [125%N].
Proof.
  reflexivity.
Qed.

Lemma content_append_same fs path bytes :
  content (append_to fs path bytes) path
  = Some (match content fs path with Some c => c | None => [] end ++ bytes).
Proof.
  induction fs as [|[p c] r IH]; cbn [append_to content].
  - destruct (text_eq_dec path path); [reflexivity|congruence].
  - destruct (text_eq_dec p path) as [E|E]; cbn [content].
    + destruct (text_eq_dec p path); [reflexivity|congruence].
    + destruct (text_eq_dec p path); [congruence|exact IH].
Qed.

Lemma content_append_other fs path bytes p :
  p <> path -> content (append_to fs path bytes) p = content fs p.
Proof.
  intros H. induction fs as [|[q c] r IH]; cbn [append_to content].
  - destruct (text_eq_dec path p); [congruence|reflexivity].
  - destruct (text_eq_dec q path) as [E|E]; cbn [content].
    + subst q. destruct (text_eq_dec path p); [congruence|reflexivity].
    + destruct (text_eq_dec q p); [reflexivity|exact IH].
Qed.

Lemma encode_utf8_snoc s b :
  SimpleESP32Handler.encode_utf8 (s ++ [10%N]) = Some b ->
  exists b0, b = b0 ++ [10%N].
Proof.
  revert b. induction s as [|c s IH]; intros b; cbn [SimpleESP32Handler.encode_utf8 app].
  - cbn. intros [= <-]. now exists [].
  - destruct (SimpleESP32Handler.utf8_char c) as [bc|]; [|discriminate].
    destruct (SimpleESP32Handler.encode_utf8 (s ++ [10%N])) as [bs|]; [|discriminate].
    intros [= <-]. destruct (IH bs eq_refl) as [b0 ->].
    exists (bc ++ b0). now rewrite app_assoc.
Qed.

Lemma append_spec d path s :
  let r := append d path s in
  openable (snd r) = openable d
  /\ (forall p, p <> path ->
      content (files (snd r)) p = content (files d) p)
  /\ exists chunk,
       held (snd r) path = held d path ++ chunk
       /\ (fst r = None -> chunk = [])
       /\ (fst r <> None ->
           SimpleESP32Handler.encode_utf8 s = Some chunk).
Proof.
  cbn zeta. unfold append, held.
  destruct (openable d path); cbn [negb].
  - destruct (SimpleESP32Handler.encode_utf8 s) as [bytes|] eqn:E;
      cbn [fst snd openable files].
    + split; [reflexivity|]. split; [intros p Hp; now apply content_append_other|].
      exists bytes. rewrite content_append_same. repeat split; congruence.
    + split; [reflexivity|]. split; [intros p Hp; now apply content_append_other|].
      exists []. rewrite content_append_same. repeat split; congruence.
  - cbn [fst snd]. split; [reflexivity|]. split; [reflexivity|].
    exists []. rewrite app_nil_r. repeat split; congruence.
Qed.

(** X21.  The file sink only ever appends to its own file.  Whatever the
    outcome, other files keep their content and the handler's file keeps
    what it held; a call that returns [False] has appended nothing; a call
    that returns [True] in the JSON or the text format has appended bytes
    that end in a line feed; and in any other format (the ['csv'] of the
    docstring included) the call returns [True] and writes nothing. *)
Theorem file_sink_only_appends
    (self : t) (text : PyText.text) (metadata : option pydict)
    (timestamp : PyText.text) (d : disk) :
  let r := send self text metadata timestamp d in
  (forall p, p <> file_path self ->
     content (files (snd r)) p = content (files d) p)
  /\ (exists chunk,
        held (snd r) (file_path self) = held d (file_path self) ++ chunk
        /\ (fst r = false -> chunk = [])
        /\ (fst r = true ->
            format self = lit "json" \/ format self = lit "text" ->
            exists line, chunk = line ++ [10%N]))
  /\ (format self <> lit "json" -> format self <> lit "text" -> r = (true, d)).
Proof.
  cbn zeta. unfold send.
  destruct (text_eqb (format self) (lit "json")) eqn:Ej.
  - apply text_eqb_eq in Ej.
    pose proof (append_spec d (file_path self)
                  (dumps (PDict (record timestamp text metadata)) ++ [10%N])) as H.
    cbn zeta in H.
    destruct (append d (file_path self) _) as [[u|] d'];
      cbn [fst snd] in *; destruct H as (_ & Ho & chunk & Hh & Hn & Hs).
    + split; [exact Ho|]. split; [|congruence].
      exists chunk. split; [exact Hh|]. split; [discriminate|].
      intros _ _. apply (encode_utf8_snoc _ _ (Hs ltac:(discriminate))).
    + split; [exact Ho|]. split; [|congruence].
      exists chunk. split; [exact Hh|]. split; [auto|discriminate].
  - destruct (text_eqb (format self) (lit "text")) eqn:Et.
    + pose proof (append_spec d (file_path self)
                    (lit "[" ++ timestamp ++ lit "] " ++ text ++ [10%N])) as H.
      cbn zeta in H.
      apply text_eqb_eq in Et.
      destruct (append d (file_path self) _) as [[u|] d'];
        cbn [fst snd] in *; destruct H as (_ & Ho & chunk & Hh & Hn & Hs).
      * split; [exact Ho|]. split; [|congruence].
        exists chunk. split; [exact Hh|]. split; [discriminate|].
        intros _ _.
        apply (encode_utf8_snoc (lit "[" ++ timestamp ++ lit "] " ++ text)).
        rewrite <- !app_assoc. apply Hs. discriminate.
      * split; [exact Ho|]. split; [|congruence].
        exists chunk. split; [exact Hh|]. split; [auto|discriminate].
    + cbn [fst snd]. split; [reflexivity|]. split; [|reflexivity].
      exists []. rewrite app_nil_r. split; [reflexivity|]. split; [reflexivity|].
      apply text_eqb_neq in Ej, Et. intros _ [H|H]; congruence.
Qed.

Lemma dict_lookup_set d k v k' :
  dict_lookup (dict_set d k v) k'
  = if text_eq_dec k k' then Some v else dict_lookup d k'.
Proof.
  induction d as [|[q x] r IH]; cbn [dict_set dict_lookup].
  - reflexivity.
  - destruct (text_eq_dec q k) as [E|E]; cbn [dict_lookup].
    + subst q. destruct (text_eq_dec k k'); reflexivity.
    + destruct (text_eq_dec q k') as [E'|E'].
      * destruct (text_eq_dec k k'); [congruence|reflexivity].
      * exact IH.
Qed.

Lemma dict_lookup_absent d k :
  ~ In k (map fst d) -> dict_lookup d k = None.
Proof.
  induction d as [|[q x] r IH]; cbn; intros H; [reflexivity|].
  destruct (text_eq_dec q k); [tauto|]. apply IH. tauto.
Qed.

Lemma dict_lookup_update md : forall data k,
  NoDup (map fst md) ->
  dict_lookup (update data md) k
  = match dict_lookup md k with
    | Some v => Some v
    | None => dict_lookup data k
    end.
Proof.
  unfold update.
  induction md as [|[q x] md IH]; intros data k Hn; [reflexivity|].
  cbn [fold_left fst snd map] in *. inversion Hn as [|? ? Hq Hn']; subst.
  rewrite (IH _ _ Hn'). cbn [dict_lookup]. rewrite dict_lookup_set.
  destruct (text_eq_dec q k) as [E|E].
  - subst q. now rewrite (dict_lookup_absent _ _ Hq).
  - reflexivity.
Qed.

(** X22.  In the JSON format the metadata is merged over the record:
    a key of the metadata, ["text"] and ["timestamp"] included, replaces
    the handler's own value, and every other key keeps it. *)
Theorem metadata_overrides_the_record
    (timestamp text : PyText.text) (md : pydict) (k : PyText.text) :
  NoDup (map fst md) ->
  dict_lookup (record timestamp text (Some md)) k
  = match dict_lookup md k with
    | Some v => Some v
    | None => dict_lookup (base_record timestamp text) k
    end.
Proof.
  intros Hn. unfold record. destruct md as [|kv md]; [reflexivity|].
  now apply dict_lookup_update.
Qed.


Lemma below_32 (c : N) :
  (c <? 32)%N = true -> In c (map N.of_nat (seq 0 32)).
Proof.
  intros H. apply N.ltb_lt in H. apply in_map_iff. exists (N.to_nat c).
  split; [apply N2Nat.id|]. apply in_seq. lia.
Qed.

Lemma scanstring_escape (c : char) (rest acc : PyText.text) :
  scanstring (escape_char c ++ rest) acc = scanstring rest (c :: acc).
Proof.
  destruct (c <? 32)%N eqn:Elow.
  - apply below_32 in Elow. cbn in Elow.
    repeat (destruct Elow as [<-|Elow]; [reflexivity|]). destruct Elow.
  - unfold escape_char. rewrite Elow.
    destruct (c =? 34)%N eqn:E1; [apply N.eqb_eq in E1; now subst c|].
    destruct (c =? 92)%N eqn:E2; [apply N.eqb_eq in E2; now subst c|].
    destruct (c =? 10)%N eqn:E3; [apply N.eqb_eq in E3; now subst c|].
    destruct (c =? 13)%N eqn:E4; [apply N.eqb_eq in E4; now subst c|].
    destruct (c =? 9)%N eqn:E5; [apply N.eqb_eq in E5; now subst c|].
    destruct (c =? 8)%N eqn:E6; [apply N.eqb_eq in E6; now subst c|].
    destruct (c =? 12)%N eqn:E7; [apply N.eqb_eq in E7; now subst c|].
    cbn [app scanstring]. rewrite E1, E2.
    replace (c <=? 31)%N with false; [reflexivity|].
    symmetry. apply N.leb_gt. apply N.ltb_ge in Elow. lia.
Qed.

Lemma scanstring_quoted (s rest : PyText.text) : forall acc,
  scanstring (flat_map escape_char s ++ 34%N :: rest) acc
  = Found (rev acc ++ s) rest.
Proof.
  induction s as [|c s IH]; intros acc.
  - cbn. now rewrite app_nil_r.
  - cbn [flat_map]. rewrite <- app_assoc, scanstring_escape, IH.
    cbn [rev]. now rewrite <- app_assoc.
Qed.

Lemma scan_once_quoted (fuel : nat) (s rest : PyText.text) :
  scan_once (S fuel) (quote s ++ rest) = Found (PStr s) rest.
Proof.
  unfold quote. cbn [app scan_once]. cbn [N.eqb Pos.eqb].
  rewrite <- app_assoc. cbn [app]. now rewrite scanstring_quoted.
Qed.

Lemma skip_ws_quote (s rest : PyText.text) :
  skip_ws (quote s ++ rest) = quote s ++ rest.
Proof. reflexivity. Qed.

Lemma members_text_cons k x r :
  members_text ((k, x) :: r)
  = quote k ++ [58; 32]%N ++ dumps x ++ more_members r.
Proof.
  destruct r; cbn [members_text more_members]; [now rewrite app_nil_r|reflexivity].
Qed.

Lemma parse_members_eq fuel s acc :
  parse_members (S fuel) s acc
  = match scanstring s [] with
    | Found key s1 =>
        match skip_ws s1 with
        | colon :: s2 =>
            if negb (colon =? 58)%N then Bad else
            match scan_once fuel (skip_ws s2) with
            | Found v s3 =>
                let acc' := dict_set acc key v in
                match skip_ws s3 with
                | c :: s4 =>
                    if (c =? 125)%N then Found (PDict acc') s4
                    else if (c =? 44)%N then
                      match skip_ws s4 with
                      | q :: s5 =>
                          if (q =? 34)%N then parse_members fuel s5 acc'
                          else Bad
                      | [] => Bad
                      end
                    else Bad
                | [] => Bad
                end
            | Bad => Bad
            | Starved => Starved
            end
        | [] => Bad
        end
    | Bad => Bad
    | Starved => Starved
    end.
Proof. reflexivity. Qed.

Lemma parse_string_members (r : pydict) :
  forall (k s : PyText.text) (acc : pydict) (fuel : nat) (rest : PyText.text),
  string_valued r ->
  (List.length r + 2 <= fuel)%nat ->
  parse_members fuel
    (flat_map escape_char k ++ [34%N] ++ [58; 32]%N ++ quote s
     ++ more_members r ++ [125%N] ++ rest) acc
  = Found (PDict (update (dict_set acc k (PStr s)) r)) rest.
Proof.
  induction r as [|[k' x] r IH]; intros k s acc fuel rest Hv Hf.
  - destruct fuel as [|[|fuel]]; [cbn in Hf; lia ..|].
    rewrite parse_members_eq. cbn [app]. rewrite scanstring_quoted.
    cbn [rev app skip_ws is_json_ws N.eqb Pos.eqb orb negb].
    rewrite skip_ws_quote, scan_once_quoted. reflexivity.
  - inversion Hv as [|? ? [s' Hx] Hv']; subst. cbn [snd] in Hx. subst x.
    destruct fuel as [|[|fuel]]; [cbn in Hf; lia ..|].
    rewrite parse_members_eq. cbn [app]. rewrite scanstring_quoted.
    cbn [rev app skip_ws is_json_ws N.eqb Pos.eqb orb negb].
    rewrite skip_ws_quote, scan_once_quoted.
    cbn [more_members]. rewrite members_text_cons. unfold quote at 1.
    cbn [app skip_ws is_json_ws N.eqb Pos.eqb orb negb dumps].
    cbn zeta.
    specialize (IH k' s' (dict_set acc k (PStr s)) (S fuel) rest Hv').
    cbn [app] in IH. repeat (rewrite <- !app_assoc; cbn [app]).
    apply IH. cbn in Hf. lia.
Qed.

Lemma members_text_length (d : pydict) :
  (List.length d <= List.length (members_text d))%nat.
Proof.
  induction d as [|[k x] r IH]; [cbn; lia|].
  rewrite members_text_cons. unfold quote. rewrite !length_app. cbn [List.length].
  destruct r as [|y r']; cbn [more_members]; [cbn; lia|].
  cbn [app List.length]. cbn [List.length] in IH. lia.
Qed.

Lemma loads_string_dict (d : pydict) :
  string_valued d ->
  loads (dumps (PDict d) ++ [10%N]) = Ok (PDict (update [] d)).
Proof.
  intros Hv. rewrite dumps_dict. unfold loads. cbn [app N.eqb Pos.eqb].
  cbn [skip_ws is_json_ws N.eqb Pos.eqb orb].
  destruct d as [|[k x] r].
  - reflexivity.
  - inversion Hv as [|? ? [s Hx] Hv']; subst. cbn [snd] in Hx. subst x.
    pose proof (members_text_length ((k, PStr s) :: r)) as Hl.
    match goal with
    | |- context [scan_once ?f _] => remember f as fuel eqn:Ef
    end.
    assert (Hf : (List.length r + 3 <= fuel)%nat).
    { subst fuel. cbn [app List.length] in *. rewrite !length_app.
      cbn [List.length]. lia. }
    clear Ef Hl. destruct fuel as [|f]; [lia|].
    assert (Hf' : (List.length r + 2 <= f)%nat) by lia. clear Hf.
    rewrite members_text_cons.
    unfold quote at 1. cbn [app scan_once N.eqb Pos.eqb skip_ws is_json_ws orb].
    cbn [dumps]. repeat (rewrite <- !app_assoc; cbn [app]).
    pose proof (parse_string_members r k s [] f [10%N] Hv' Hf') as H.
    cbn [app] in H.
    etransitivity; [|reflexivity].
    refine (eq_trans (f_equal (fun x => match x with
                                         | Found v rest =>
                                             match skip_ws rest with
                                             | [] => Ok v
                                             | _ :: _ => Raise JSONDecodeError
                                             end
                                         | _ => Raise JSONDecodeError
                                         end) H) _).
    reflexivity.
Qed.

Lemma dict_set_keys d k v :
  map fst (dict_set d k v)
  = if in_dec text_eq_dec k (map fst d) then map fst d else map fst d ++ [k].
Proof.
  induction d as [|[q x] r IH]; cbn [dict_set map fst].
  - destruct (in_dec text_eq_dec k []) as [[]|]; reflexivity.
  - destruct (text_eq_dec q k) as [E|E]; cbn [map fst].
    + destruct (in_dec text_eq_dec k (q :: map fst r)) as [|n];
        [reflexivity|]. destruct n. now left.
    + rewrite IH.
      destruct (in_dec text_eq_dec k (map fst r)) as [i|n];
        destruct (in_dec text_eq_dec k (q :: map fst r)) as [i'|n'];
        try reflexivity.
      * destruct n'. now right.
      * destruct i' as [|i']; [congruence|contradiction].
Qed.

Lemma dict_set_nodup d k v :
  NoDup (map fst d) -> NoDup (map fst (dict_set d k v)).
Proof.
  intros H. rewrite dict_set_keys.
  destruct (in_dec text_eq_dec k (map fst d)) as [i|n]; [exact H|].
  apply NoDup_app; [exact H|constructor; [intros []|constructor]|].
  intros a Ha [<-|[]]. contradiction.
Qed.

Lemma dict_set_string_valued d k s :
  string_valued d -> string_valued (dict_set d k (PStr s)).
Proof.
  unfold string_valued.
  induction d as [|[q x] r IH]; intros H; cbn [dict_set].
  - constructor; [now exists s|constructor].
  - inversion H as [|? ? Hx Hr]; subst.
    destruct (text_eq_dec q k); constructor; auto. now exists s.
Qed.

Lemma update_keeps md : forall data,
  NoDup (map fst data) -> string_valued data -> string_valued md ->
  NoDup (map fst (update data md)) /\ string_valued (update data md).
Proof.
  unfold update.
  induction md as [|[k x] md IH]; intros data Hn Hd Hm; [now split|].
  inversion Hm as [|? ? [s Hx] Hm']; subst. cbn [snd] in Hx. subst x.
  cbn [fold_left fst snd]. apply IH; auto.
  - now apply dict_set_nodup.
  - now apply dict_set_string_valued.
Qed.

Lemma dict_set_fresh d k v :
  ~ In k (map fst d) -> dict_set d k v = d ++ [(k, v)].
Proof.
  induction d as [|[q x] r IH]; cbn; intros H; [reflexivity|].
  destruct (text_eq_dec q k); [tauto|]. rewrite IH; tauto.
Qed.

Lemma update_fresh d : forall acc,
  NoDup (map fst (acc ++ d)) -> update acc d = acc ++ d.
Proof.
  unfold update.
  induction d as [|[k x] d IH]; intros acc H; [now rewrite app_nil_r|].
  cbn [fold_left fst snd].
  assert (Hk : ~ In k (map fst acc)).
  { rewrite map_app in H. cbn [map fst] in H.
    apply NoDup_remove_2 in H. intros Hi. apply H, in_or_app. now left. }
  rewrite (dict_set_fresh _ _ _ Hk).
  rewrite IH; rewrite <- app_assoc; [reflexivity|exact H].
Qed.

(** X23.  Round trip of the JSON format.  When the metadata holds strings,
    the line the handler writes is a JSON document, and [json.loads]
    gives back the record it was written from: the transcript and every
    metadata field are recovered exactly, whatever characters they hold. *)
Theorem json_line_round_trip
    (timestamp text : PyText.text) (metadata : option pydict) :
  match metadata with
  | Some md => string_valued md
  | None => True
  end ->
  loads (dumps (PDict (record timestamp text metadata)) ++ [10%N])
  = Ok (PDict (record timestamp text metadata)).
Proof.
  intros Hm.
  assert (Hb : NoDup (map fst (base_record timestamp text))
               /\ string_valued (base_record timestamp text)).
  { split.
    - cbn. constructor; [|constructor; [intros []|constructor]].
      intros [H|[]]. discriminate H.
    - repeat constructor; eexists; reflexivity. }
  assert (Hr : NoDup (map fst (record timestamp text metadata))
               /\ string_valued (record timestamp text metadata)).
  { unfold record. destruct metadata as [[|kv md]|]; try exact Hb.
    now apply update_keeps. }
  destruct Hr as [Hn Hs]. rewrite (loads_string_dict _ Hs).
  now rewrite (update_fresh _ [] Hn).
Qed.

End FileMore.

(* ===================================================================== *)
(** ** The engine: invariants, the watchdog, cleanup, devices *)
(* ===================================================================== *)

Section EngineMore.
Import VoskSTTEngine Spec.

Lemma loop_pass_keeps_engine (c : capture) (self : t) :
  fst (fst (loop_pass c self)) = self.
Proof.
  unfold loop_pass.
  destruct (stop_event self); [reflexivity|].
  destruct (negb (is_running self) || negb (is_listening self)
            || shutdown_requested self); [reflexivity|].
  destruct c as [|r|p|m]; try reflexivity.
  - destruct (result_text r (lit "text")); reflexivity.
  - destruct (result_text p (lit "partial")); reflexivity.
  - destruct (contains (lit "Input overflowed") m); reflexivity.
Qed.

Ltac flags :=
  cbn in *; repeat split; intros; auto; try discriminate; try tauto;
  try congruence.

Lemma step_consistent (a : action) (self : t) :
  consistent self -> consistent (fst (step a self)).
Proof.
  unfold consistent. intros (Hi & Hl & Hs).
  destruct a as [f|env| |c]; cbn [step].
  - unfold start_listening. rewrite Hi. cbn [negb].
    destruct (is_listening self) eqn:El; [cbn; auto|].
    destruct f; [flags|].
    destruct self; cbn in *.
    destruct stream_active0, auto_stop_duration0 as [d|]; cbn;
      try destruct (d =? 0)%Z; flags.
  - unfold stop_listening.
    destruct (is_listening self) eqn:El; cbn [negb];
      [|cbn; rewrite El; flags].
    destruct (stream_fails env); [flags|].
    destruct self; cbn in *.
    destruct stream_active0; cbn;
      destruct (timer_alive auto_stop_timer0); cbn;
      destruct (thread_alive audio_thread0); flags.
  - destruct (timer_alive (auto_stop_timer self)); [|cbn; auto].
    unfold _auto_stop_callback.
    destruct (is_listening self) eqn:El; cbn [andb negb fst].
    + destruct (Hl eq_refl) as [Hr Hsd]. rewrite Hsd. cbn.
      rewrite ?El. flags.
    + cbn. rewrite ?El. flags.
  - destruct (thread_alive (audio_thread self)); [|cbn; auto].
    pose proof (loop_pass_keeps_engine c self) as Hp.
    destruct (loop_pass c self) as [[s out] g]. cbn [fst] in Hp. subst s.
    destruct g; cbn; auto.
Qed.

(** X24.  The flags of the engine stay consistent, whatever the control
    thread, the watchdog and the capture thread do and in whatever order:
    the engine stays initialised, while [is_listening] holds so does
    [is_running] and no shutdown is requested, and a requested shutdown
    has the stop event set. *)
Theorem engine_flags_stay_consistent (actions : list action) (self : t) :
  consistent self -> consistent (fst (run actions self)).
Proof.
  revert self. induction actions as [|a rest IH]; intros self H; [exact H|].
  cbn [run]. pose proof (step_consistent a self H) as H1.
  destruct (step a self) as [s1 o1]. cbn [fst] in H1.
  specialize (IH s1 H1). destruct (run rest s1) as [s2 o2]. exact IH.
Qed.

Lemma result_text_trimmed (json key s : text) :
  result_text json key = Ok s -> strip s = s.
Proof.
  unfold result_text, bind.
  destruct (Json.loads json) as [v|e]; [|discriminate].
  destruct v; try discriminate.
  destruct (dict_get _ key (PStr [])); try discriminate.
  intros [= <-]. apply strip_idem.
Qed.

Lemma nonblank_nonempty (s : text) : nonblank s = true -> s <> [].
Proof. destruct s; [discriminate|]. intros _ H. discriminate H. Qed.

Lemma call_well_formed (set : bool) (c : callback) :
  well_formed c -> Forall well_formed (call set c).
Proof. intros H. destruct set; repeat constructor. exact H. Qed.

Lemma transcript_well_formed (json key s : text) :
  result_text json key = Ok s -> nonblank s = true -> trimmed s.
Proof.
  intros E En. split; [now apply nonblank_nonempty|].
  exact (result_text_trimmed _ _ _ E).
Qed.

Lemma loop_pass_well_formed (c : capture) (self : t) :
  Forall well_formed (snd (fst (loop_pass c self))).
Proof.
  unfold loop_pass.
  destruct (stop_event self); [constructor|].
  destruct (negb (is_running self) || negb (is_listening self)
            || shutdown_requested self); [constructor|].
  destruct c as [|r|p|m]; cbn [fst snd].
  - constructor.
  - destruct (result_text r (lit "text")) as [s|e] eqn:E; cbn [fst snd];
      [|now apply call_well_formed].
    destruct (nonblank s) eqn:En; [|constructor].
    apply call_well_formed. exact (transcript_well_formed _ _ _ E En).
  - destruct (result_text p (lit "partial")) as [s|e] eqn:E; cbn [fst snd];
      [|now apply call_well_formed].
    destruct (nonblank s) eqn:En; [|constructor].
    apply call_well_formed. exact (transcript_well_formed _ _ _ E En).
  - destruct (contains (lit "Input overflowed") m); cbn [fst snd];
      [constructor|now apply call_well_formed].
Qed.

Lemma step_well_formed (a : action) (self : t) :
  Forall well_formed (snd (step a self)).
Proof.
  destruct a as [f|env| |c]; cbn [step].
  - unfold start_listening.
    destruct (negb (is_initialized self)); [constructor|].
    destruct (is_listening self); [constructor|].
    destruct f; [constructor|]. cbn zeta. cbn [snd fst].
    now apply call_well_formed.
  - unfold stop_listening.
    destruct (negb (is_listening self)); [constructor|].
    destruct (stream_fails env); [constructor|]. cbn zeta. cbn [snd fst].
    apply Forall_app. split; [|now apply call_well_formed].
    unfold _safe_get_final_result.
    destruct (result_text (final_result env) (lit "text")) as [s|e] eqn:E;
      [|now apply call_well_formed].
    destruct (nonblank s) eqn:En; [|constructor].
    apply call_well_formed. exact (transcript_well_formed _ _ _ E En).
  - destruct (timer_alive (auto_stop_timer self)); constructor.
  - destruct (thread_alive (audio_thread self)); [|constructor].
    pose proof (loop_pass_well_formed c self) as H.
    destruct (loop_pass c self) as [[s out] g]. exact H.
Qed.

(** X25.  What the callbacks receive.  In every run of the engine, each
    transcript handed to [on_partial_result], [on_final_result] or
    [on_complete_result] is non-empty and has no blanks around it. *)
Theorem delivered_transcripts_are_trimmed
    (actions : list action) (self : t) :
  Forall well_formed (snd (run actions self)).
Proof.
  revert self. induction actions as [|a rest IH]; intros self; [constructor|].
  cbn [run]. pose proof (step_well_formed a self) as H1.
  destruct (step a self) as [s1 o1]. specialize (IH s1).
  destruct (run rest s1) as [s2 o2]. cbn [snd] in *.
  apply Forall_app. now split.
Qed.




Lemma devices_from_spec (infos : list device_info) :
  forall (i j : nat) (n : text) (ch : Z),
  In (j, n, ch) (devices_from i infos)
  <-> exists info, (i <= j)%nat /\ nth_error infos (j - i) = Some info
                   /\ name info = n /\ maxInputChannels info = ch
                   /\ (0 < ch)%Z.
Proof.
  induction infos as [|info rest IH]; intros i j n ch; cbn [devices_from].
  - split; [intros []|]. intros (x & _ & H & _). now destruct (j - i)%nat.
  - assert (Hrest : In (j, n, ch) (devices_from (S i) rest)
                    <-> exists x, (S i <= j)%nat
                                  /\ nth_error (info :: rest) (j - i) = Some x
                                  /\ name x = n /\ maxInputChannels x = ch
                                  /\ (0 < ch)%Z).
    { rewrite IH. split; intros (x & Hj & Hn & Hr); exists x;
        (split; [exact Hj|]); (split; [|exact Hr]).
      - replace (j - i)%nat with (S (j - S i)) by lia. exact Hn.
      - replace (j - i)%nat with (S (j - S i)) in Hn by lia. exact Hn. }
    destruct (0 <? maxInputChannels info)%Z eqn:E.
    + cbn [In]. rewrite Hrest. split.
      * intros [[= <- <- <-]|(x & Hj & H)].
        -- exists info. rewrite Nat.sub_diag. apply Z.ltb_lt in E.
           repeat split; auto.
        -- exists x. split; [lia|exact H].
      * intros (x & Hj & Hn & Hname & Hch & Hpos).
        destruct (Nat.eq_dec i j) as [->|Hne].
        -- left. rewrite Nat.sub_diag in Hn. cbn in Hn.
           injection Hn as <-. now subst.
        -- right. exists x. split; [lia|]. auto.
    + rewrite Hrest. split.
      * intros (x & Hj & H). exists x. split; [lia|exact H].
      * intros (x & Hj & Hn & Hname & Hch & Hpos).
        destruct (Nat.eq_dec i j) as [->|Hne].
        -- rewrite Nat.sub_diag in Hn. cbn in Hn. injection Hn as <-.
           apply Z.ltb_ge in E. lia.
        -- exists x. split; [lia|]. auto.
Qed.

Lemma devices_from_sorted (infos : list device_info) : forall i,
  StronglySorted lt (map (fun e => fst (fst e)) (devices_from i infos)).
Proof.
  induction infos as [|info rest IH]; intros i; cbn [devices_from];
    [constructor|].
  destruct (0 <? maxInputChannels info)%Z; [|apply IH].
  cbn [map fst]. constructor; [apply IH|].
  apply Forall_forall. intros j Hj. apply in_map_iff in Hj.
  destruct Hj as ([[j' n] ch] & <- & Hin). cbn [fst].
  apply devices_from_spec in Hin. destruct Hin as (x & Hle & _). lia.
Qed.

(** X28.  [get_audio_devices] lists exactly the devices that have an input
    channel, each under its own index with its name and channel count, in
    the order of the indices; without audio interface the list is
    empty. *)
Theorem audio_devices_are_the_input_devices
    (infos : list device_info) (j : nat) (n : text) (ch : Z) :
  (In (j, n, ch) (get_audio_devices (Some infos))
   <-> exists info, nth_error infos j = Some info
                    /\ name info = n /\ maxInputChannels info = ch
                    /\ (0 < ch)%Z)
  /\ StronglySorted lt
       (map (fun e => fst (fst e)) (get_audio_devices (Some infos)))
  /\ get_audio_devices None = [].
Proof.
  split; [|split; [apply devices_from_sorted|reflexivity]].
  cbn [get_audio_devices]. rewrite devices_from_spec.
  rewrite Nat.sub_0_r. split.
  - intros (x & _ & H). now exists x.
  - intros (x & H). exists x. split; [lia|exact H].
Qed.

(** X29.  A stream error in the middle of a call leaves the flags
    switched.  When [start_listening] fails in the stream call, the engine
    is left listening without a new capture thread and a further
    [start_listening] returns without doing anything; when
    [stop_listening] fails there, the engine is left stopped, nothing is
    delivered or announced, the timer is not cancelled, and a further
    [stop_listening] returns at once, so the pending result is lost. *)
Theorem stream_error_leaves_flags_switched
    (self : t) (f : bool) (env env' : stop_env) :
  is_initialized self = true ->
  (is_listening self = false ->
   let s := fst (fst (start_listening true self)) in
   start_listening true self = (s, [], Raise OSError)
   /\ is_listening s = true
   /\ audio_thread s = audio_thread self
   /\ start_listening f s = (s, [], Ok tt))
  /\ (is_listening self = true -> stream_fails env = true ->
      let s := fst (fst (stop_listening env self)) in
      stop_listening env self = (s, [], Raise OSError)
      /\ is_listening s = false
      /\ auto_stop_timer s = auto_stop_timer self
      /\ stop_listening env' s = (s, [], Ok tt)).
Proof.
  intros Hi. split.
  - intros Hl. cbn zeta. unfold start_listening. rewrite Hi, Hl. cbn.
    rewrite Hi. cbn. auto.
  - intros Hl Hf. cbn zeta. unfold stop_listening. rewrite Hl, Hf. cbn. auto.
Qed.

End EngineMore.

(* ===================================================================== *)
(** ** Instances of the properties above *)
(* ===================================================================== *)

Section ESP32MoreExamples.
Import SimpleESP32Handler Spec.


Lemma send_command_on_healthy_port_witness :
  fst (send_command connected (lit " open20 ") default_encoding_list quiet) = true
  /\ trace (snd (send_command connected (lit " open20 ") default_encoding_list quiet))
     = trace quiet ++ [SendCommand (lit " open20 ");
                       SerialWrite (lit "open20" ++ [10%N])].
Proof.
  exact (send_command_on_healthy_port connected (lit " open20 ") quiet
           eq_refl eq_refl).
Defined.

Lemma flush_failure_repeats_the_command_witness :
  let w := flaky_flush in
  fst (send_command connected (lit "open20") default_encoding_list w) = true
  /\ trace (snd (send_command connected (lit "open20") default_encoding_list w))
     = trace w ++ [SendCommand (lit "open20");
                   SerialWrite (lit "open20" ++ [10%N]);
                   SerialWrite (lit "open20" ++ [13%N; 10%N])].
Proof.
  exact (flush_failure_repeats_the_command connected (lit "open20")
           (lit "open20") [] flaky_flush
           eq_refl eq_refl eq_refl eq_refl).
Defined.

Lemma port_matching_ignores_case_witness :
  looks_like_esp32 (fun s => s)
    {| device := lit "/dev/ttyUSB0"; description := lit "usb-SERIAL ch340" |}
  = true.
Proof.
  apply (port_matching_ignores_case (fun s => s)
           {| device := lit "/dev/ttyUSB0";
              description := lit "usb-SERIAL ch340" |}
           (lit "usb-SERIAL ") (lit "ch340") [] (lit "CH340"));
    vm_compute; auto.
Defined.

End ESP32MoreExamples.

Section OpenAIMoreExamples.
Import OpenAIAPIHandler Spec.

Lemma no_request_without_attempts_witness :
  @send plain_runtime no_retries (lit "open the window") None quiet
  = (Ok false, quiet).
Proof.
  apply (@no_request_without_attempts plain_runtime no_retries
           (lit "open the window") None quiet
           (PStr (lit "You control a window."))
           (lit "音声認識結果: " ++ lit "open the window"));
    [vm_compute; discriminate|reflexivity].
Defined.

Lemma backoff_schedule_witness :
  let w := with_http [Response 429 None; Timeout; Response 500 None] quiet in
  exists w',
    @send plain_runtime (remote None) (lit "open the window") None w
    = (Ok false, w')
    /\ trace w'
       = trace w
         ++ backoff_trace (PStr (lit "You control a window."))
              (lit "音声認識結果: " ++ lit "open the window") 3
    /\ http_script w' = [].
Proof.
  apply (@backoff_schedule plain_runtime (remote None) (lit "open the window")
           None (with_http [Response 429 None; Timeout; Response 500 None] quiet)
           (PStr (lit "You control a window."))
           (lit "音声認識結果: " ++ lit "open the window")).
  - reflexivity.
  - intros j Hj. destruct j as [|[|[|j]]]; [reflexivity ..|].
    vm_compute in Hj. lia.
Defined.

End OpenAIMoreExamples.

Section DispatchMoreExamples.
Import MultiOutputHandler Spec.


End DispatchMoreExamples.

Section FileMoreExamples.
Import FileOutputHandler Spec.

Lemma metadata_overrides_the_record_witness :
  dict_lookup
    (record (lit "2025-01-01 12:00:00") (lit "open the window")
       (Some [(lit "text", PStr (lit "override"))]))
    (lit "text")
  = Some (PStr (lit "override")).
Proof.
  apply (metadata_overrides_the_record (lit "2025-01-01 12:00:00")
           (lit "open the window") [(lit "text", PStr (lit "override"))]
           (lit "text")).
  constructor; [intros []|constructor].
Defined.

Lemma json_line_round_trip_witness :
  let text := lit "say " ++ [34%N] ++ lit "open" ++ [34%N; 10%N; 92%N; 7%N] in
  let metadata := Some [(lit "type", PStr (lit "final"))] in
  Json.loads
    (@dumps plain_runtime
       (PDict (record (lit "2025-01-01 12:00:00") text metadata)) ++ [10%N])
  = Ok (PDict (record (lit "2025-01-01 12:00:00") text metadata)).
Proof.
  apply (@json_line_round_trip plain_runtime).
  repeat constructor. eexists. reflexivity.
Defined.

End FileMoreExamples.

Section EngineMoreExamples.
Import VoskSTTEngine Spec.

Lemma engine_flags_stay_consistent_witness :
  consistent
    (fst (run [Start false; CapturePass NoData; TimerFires; Stop calm_stop;
               Start true] configured)).
Proof.
  apply engine_flags_stay_consistent.
  split; [reflexivity|]. split; cbn; intros H; discriminate H.
Defined.


Lemma stream_error_leaves_flags_switched_witness :
  is_initialized configured = true
  /\ is_listening (fst (fst (start_listening true configured))) = true.
Proof.
  split; [reflexivity|].
  apply (stream_error_leaves_flags_switched configured false calm_stop calm_stop
           eq_refl).
  reflexivity.
Defined.

End EngineMoreExamples.
